(** * DeepTraffic-GradCAM backend: the request handlers of [backend/main.py]

    The handlers are embedded as functions in a small state-and-exception
    monad.  The three module globals ([model], [explain_model],
    [cam_extractor]) are an explicit record; everything the handlers
    delegate to third-party libraries (base64, OpenCV, ultralytics,
    pytorch_grad_cam, torchvision, pathlib, the wall clock) is reached
    through the [Externals] interface.

    The arithmetic [detect] does itself is modelled as Python and numpy
    do it.  The corner boxes are float32 and are normalised in float32
    (round to nearest, ties to even, with infinities and NaN) under the
    promotion rules of NumPy 2, where a Python integer operand takes the
    type of the float32 it meets.  [int] raises on NaN and on an
    infinity.  The confidence and the clock readings are Python floats,
    taken at their exact value.  Python's [round] on them is correct
    rounding, ties to even; it is modelled by the decimal it rounds to,
    which is the number the answer prints, the float that Python returns
    being the one nearest to that decimal.  Differences and products of
    clock readings are left to the interface. *)

From Stdlib Require Import ZArith QArith Qround Qabs Qfield Qpower Lia Lqa.
From Stdlib Require Import Floats.SpecFloat.
From Stdlib Require Import Strings.Ascii Strings.Byte.
From stdpp Require Import base option list strings gmap fin_maps pretty.

Open Scope Z_scope.

(** ** Python exceptions and results *)

Inductive Exception : Type :=
  | HTTPException (status_code : Z) (detail : string)
  | PyError (message : string).

(** [str(e)], as it is interpolated into the [detail] of a 400 answer. *)
Definition str_of_exception (e : Exception) : string :=
  match e with
  | HTTPException c d => pretty c +:+ ": " +:+ d
  | PyError m => m
  end.

Inductive Outcome (A : Type) : Type :=
  | Return (a : A)
  | Raise (e : Exception).
Arguments Return {A} a.
Arguments Raise {A} e.

Definition obind {A B} (o : Outcome A) (k : A → Outcome B) : Outcome B :=
  match o with
  | Return a => k a
  | Raise e => Raise e
  end.

(** What a library call hands back: its value, or the text of the
    exception it raised.  No library raises the framework's
    [HTTPException]. *)
Inductive Lib (A : Type) : Type :=
  | Done (a : A)
  | Fails (message : string).
Arguments Done {A} a.
Arguments Fails {A} message.

Definition lbind {A B} (r : Lib A) (k : A → Lib B) : Lib B :=
  match r with
  | Done a => k a
  | Fails m => Fails m
  end.

Definition of_lib {A} (r : Lib A) : Outcome A :=
  match r with
  | Done a => Return a
  | Fails m => Raise (PyError m)
  end.

(** Subscripting a sequence: [l[i]], raising [IndexError] out of range. *)
Definition index {A} (l : list A) (i : nat) : Outcome A :=
  match l !! i with
  | Some a => Return a
  | None => Raise (PyError "index out of range")
  end.


(** ** Numbers

    Three kinds of number meet in the handlers.  The cells of the
    tracker's tensors, and what numpy computes from them, are float32.
    The confidence and the clock readings are Python floats, taken at
    their exact value.  Ids, class ids and frame sizes are integers. *)

(** Nearest integer, ties to the even neighbour. *)
Definition round_half_even (q : Q) : Z :=
  let f := Qfloor q in
  match Qcompare (q - inject_Z f) (1 # 2) with
  | Lt => f
  | Gt => f + 1
  | Eq => if Z.even f then f else f + 1
  end.

(** [round(x, ndigits)] on a Python float: the exact value of [x] rounded
    to the nearest multiple of [10 ** -ndigits], ties to even.  Python
    returns the float nearest to this decimal, and prints it as this
    decimal. *)
Definition round (x : Q) (ndigits : nat) : Q :=
  let scale := Pos.pow 10 (Pos.of_nat ndigits) in
  match ndigits with
  | O => inject_Z (round_half_even x)
  | S _ => Qmake (round_half_even (x * inject_Z (Zpos scale))) scale
  end.

(** Truncation toward zero. *)
Definition trunc (x : Q) : Z := Z.quot (Qnum x) (Zpos (Qden x)).

(** *** numpy's float32

    A float32 is a rational [m * 2^e] with [|m| < 2^24] and
    [-149 <= e <= 104], an infinity, or NaN; the two zeros are not told
    apart.  An operation returns the float32 nearest to its exact result,
    ties to the even mantissa, and overflows to an infinity when that is
    [2^128] or more in magnitude. *)
Inductive float32 : Type :=
  | Finite (q : Q)
  | Infinity (negative : bool)
  | NaN.

Definition pow2 (e : Z) : Q := Qpower 2 e.

(** [floor(log2(|q|))], for [q] other than zero. *)
Definition ilog2 (q : Q) : Z :=
  let l := Z.log2 (Z.abs (Qnum q)) - Z.log2 (Zpos (Qden q)) in
  if Qle_bool (pow2 l) (Qabs q) then l else l - 1.

(** The weight of the last mantissa bit of the float32 nearest to [q]:
    24 bits of mantissa, and nothing finer than [2^-149]. *)
Definition f32_exponent (q : Q) : Z := Z.max (ilog2 q - 23) (-149).

Definition round_to_exponent (e : Z) (q : Q) : Q :=
  (inject_Z (round_half_even (q / pow2 e)) * pow2 e)%Q.

(** The value of the float32 nearest to [q], before the overflow test. *)
Definition f32_nearest (q : Q) : Q :=
  if Qeq_bool q 0 then 0%Q else round_to_exponent (f32_exponent q) q.

Definition is_negative (q : Q) : bool := negb (Qle_bool 0 q).

(** The float32 that an exact result [q] is rounded to. *)
Definition f32_round (q : Q) : float32 :=
  let r := f32_nearest q in
  if Qle_bool (pow2 128) (Qabs r) then Infinity (is_negative q)
  else Finite (Qred r).

Definition f32_opp (a : float32) : float32 :=
  match a with
  | Finite q => Finite (- q)
  | Infinity s => Infinity (negb s)
  | NaN => NaN
  end.

(** [a + b] *)
Definition f32_add (a b : float32) : float32 :=
  match a, b with
  | NaN, _ | _, NaN => NaN
  | Finite p, Finite q => f32_round (p + q)
  | Infinity s, Infinity t => if Bool.eqb s t then Infinity s else NaN
  | Infinity s, Finite _ | Finite _, Infinity s => Infinity s
  end.

(** [a - b] *)
Definition f32_sub (a b : float32) : float32 := f32_add a (f32_opp b).

(** [a * b] *)
Definition f32_mul (a b : float32) : float32 :=
  match a, b with
  | NaN, _ | _, NaN => NaN
  | Finite p, Finite q => f32_round (p * q)
  | Infinity s, Finite q | Finite q, Infinity s =>
      if Qeq_bool q 0 then NaN else Infinity (xorb s (is_negative q))
  | Infinity s, Infinity t => Infinity (xorb s t)
  end.

(** [a / b]: numpy warns on a zero divisor and returns an infinity or
    NaN; it does not raise. *)
Definition f32_div (a b : float32) : float32 :=
  match a, b with
  | NaN, _ | _, NaN => NaN
  | Finite p, Finite q =>
      if Qeq_bool q 0
      then if Qeq_bool p 0 then NaN else Infinity (is_negative p)
      else f32_round (p / q)
  | Finite _, Infinity _ => Finite 0
  | Infinity s, Finite q => Infinity (xorb s (is_negative q))
  | Infinity _, Infinity _ => NaN
  end.

(** [np.rint]: the nearest integer, ties to even. *)
Definition f32_rint (a : float32) : float32 :=
  match a with
  | Finite q => Finite (inject_Z (round_half_even q))
  | _ => a
  end.

(** A Python integer that meets a float32 becomes a float32. *)
Definition of_int (n : Z) : float32 := f32_round (inject_Z n).

(** [round(x, ndigits)] on a float32, for [ndigits] above zero: numpy
    multiplies by [10 ** ndigits], rounds to the nearest integer and
    divides again, each step in float32. *)
Definition float32_round (x : float32) (ndigits : nat) : float32 :=
  let f := of_int (10 ^ Z.of_nat ndigits) in
  f32_div (f32_rint (f32_mul x f)) f.

(** [int(t)] on a cell of a tensor: truncation toward zero, [ValueError]
    on NaN and [OverflowError] on an infinity. *)
Definition int (t : float32) : Outcome Z :=
  match t with
  | Finite q => Return (trunc q)
  | Infinity _ => Raise (PyError "cannot convert float infinity to integer")
  | NaN => Raise (PyError "cannot convert float NaN to integer")
  end.

(** The same numbers in the Standard Library's model of IEEE 754
    (precision 24, exponents below 128), for comparison. *)
Definition binary32 (m e : Z) : spec_float := binary_normalize 24 128 m e false.

Definition float32_of_spec (f : spec_float) : float32 :=
  match f with
  | S754_zero _ => Finite 0
  | S754_infinity s => Infinity s
  | S754_nan => NaN
  | S754_finite s m e =>
      Finite (Qred (inject_Z (if s then Zneg m else Zpos m) * pow2 e))
  end.

(** ** Request and response schemas

    Field names are those of the pydantic models.  Where two models share
    a field name the later one carries a prefix: [explain_frame] and
    [explain_inference_time_ms] are [ExplainRequest.frame] and
    [ExplainResponse.inference_time_ms], [health_tracker] is the
    ["tracker"] key of the health answer.  [DetectResponse] is declared
    twice in the source; the second declaration, with [tracker], is the
    one in force.  The fields of [BBox] are handed over as float32 and
    widened to Python floats without change of value. *)

Record BBox : Type := {
  x : float32;
  y : float32;
  width : float32;
  height : float32;
}.

Record DetectionResult : Type := {
  track_id : Z;
  class_name : string;
  class_id : Z;
  confidence : Q;
  bbox : BBox;
}.

Record DetectResponse : Type := {
  detections : list DetectionResult;
  vehicle_count : Z;
  count_by_class : gmap string Z;
  inference_time_ms : Q;
  frame_width : Z;
  frame_height : Z;
  tracker : string;
}.

Record ExplainResponse : Type := {
  heatmap : string;
  explain_inference_time_ms : Q;
}.

Record HealthResponse : Type := {
  status : string;
  model_loaded : bool;
  model_path : string;
  health_tracker : string;
}.

Record DetectRequest : Type := {
  frame : string;
  conf : Q;
  iou : Q;
  imgsz : Z;
}.

Record ExplainRequest : Type := {
  explain_frame : string;
}.

Definition DEFAULT_CONF : Q := 4 # 10.
Definition DEFAULT_IOU : Q := 5 # 10.
Definition DEFAULT_IMGSZ : Z := 640.
(** [MODEL_PATH.name] and [MODEL_PATH.stem]: the last part of the path,
    whatever directory it lies in. *)
Definition MODEL_PATH_name : string := "best.pt".
Definition MODEL_PATH_stem : string := "best".

(** ** What the tracker hands back (ultralytics [Results] / [Boxes])

    One row of the [Boxes] tensor, which is float32: the corner box, the
    track id column (read only when [is_track]), the confidence and the
    class.  The confidence is read through [float()] and stands here for
    its value. *)
Record BoxRow : Type := {
  row_xyxy : float32 * float32 * float32 * float32;
  row_id : float32;
  row_conf : Q;
  row_cls : float32;
}.

Record Boxes : Type := {
  data : list BoxRow;
  is_track : bool;
}.

Definition len (b : Boxes) : nat := length (data b).
Definition boxes_xyxy (b : Boxes)
  : list (float32 * float32 * float32 * float32) := row_xyxy <$> data b.
Definition boxes_conf (b : Boxes) : list Q := row_conf <$> data b.
Definition boxes_cls (b : Boxes) : list float32 := row_cls <$> data b.
(** [boxes.id] is [None] unless the tracker filled the id column. *)
Definition boxes_id (b : Boxes) : option (list float32) :=
  if is_track b then Some (row_id <$> data b) else None.

Record Results : Type := {
  boxes : option Boxes;
}.

(** ** Parsing the results (the loop of [detect]) *)

(** [model.names.get(cls_id, f"class_{cls_id}")] *)
Definition names_get (names : gmap Z string) (cls_id : Z) : string :=
  default ("class_" +:+ pretty cls_id) (names !! cls_id).

(** One pass of the loop body for index [i]: the detection appended and the
    name whose counter is incremented. *)
Definition parse_box (names : gmap Z string) (bs : Boxes) (w h : Z) (i : nat)
  : Outcome DetectionResult :=
  obind (index (boxes_xyxy bs) i) (λ xyxy,
  let '(x1, y1, x2, y2) := xyxy in
  let cx := f32_div (f32_div (f32_add x1 x2) (of_int 2)) (of_int w) in
  let cy := f32_div (f32_div (f32_add y1 y2) (of_int 2)) (of_int h) in
  let bw := f32_div (f32_sub x2 x1) (of_int w) in
  let bh := f32_div (f32_sub y2 y1) (of_int h) in
  obind (index (boxes_conf bs) i) (λ conf,
  obind (index (boxes_cls bs) i) (λ cls,
  obind (int cls) (λ cls_id,
  let cls_name := names_get names cls_id in
  obind (match boxes_id bs with
         | Some ids => obind (index ids i) int
         | None => Return (-1)
         end) (λ track_id,
  Return {| track_id := track_id;
            class_name := cls_name;
            class_id := cls_id;
            confidence := round conf 4;
            bbox := {| x := float32_round cx 4; y := float32_round cy 4;
                       width := float32_round bw 4;
                       height := float32_round bh 4 |} |}))))).

(** [count_by_class[cls_name] = count_by_class.get(cls_name, 0) + 1] *)
Definition count_incr (counts : gmap string Z) (cls_name : string) : gmap string Z :=
  <[cls_name := default 0 (counts !! cls_name) + 1]> counts.

(** [for i in range(len(boxes))], threading [detections] and
    [count_by_class]. *)
Fixpoint parse_loop (names : gmap Z string) (bs : Boxes) (w h : Z)
    (range : list nat) (detections : list DetectionResult)
    (counts : gmap string Z)
  : Outcome (list DetectionResult * gmap string Z) :=
  match range with
  | [] => Return (detections, counts)
  | i :: range' =>
      obind (parse_box names bs w h i) (λ d,
      parse_loop names bs w h range' (detections ++ [d])
                 (count_incr counts (class_name d)))
  end.

(** [if results and results[0].boxes is not None: ...] *)
Definition parse_results (names : gmap Z string) (results : list Results)
    (w h : Z) : Outcome (list DetectionResult * gmap string Z) :=
  match results with
  | r0 :: _ =>
      match boxes r0 with
      | Some bs => parse_loop names bs w h (seq 0 (len bs)) [] ∅
      | None => Return ([], ∅)
      end
  | [] => Return ([], ∅)
  end.

(** ** Arrays and the libraries behind the handlers *)

(** A numpy image or mask: [shape[:2]] is [(rows, columns)], the cell
    contents stay opaque. *)
Record ndarray (P : Type) : Type := {
  shape : Z * Z;
  pixels : P;
}.
Arguments shape {P} _.
Arguments pixels {P} _.

(** The batch tensor given to the classifier, shape [(N, C, H, W)]. *)
Record Tensor (P : Type) : Type := {
  tensor_shape : Z * Z * Z * Z;
  tensor_data : P;
}.
Arguments tensor_shape {P} _.
Arguments tensor_data {P} _.

Inductive ColorCode : Type := COLOR_BGR2RGB | COLOR_RGB2BGR.

(** Everything [main.py] imports and calls.  [World] is what lives outside
    the three module globals: the weights on disk, the tracker memory kept
    inside the detector by [persist=True], the clock. *)
Class Externals : Type := {
  World : Type;
  Pixels : Type;
  Detector : Type;
  Classifier : Type;
  CamExtractor : Type;
  (* pathlib: the text of [Path(__file__).parent / part / ...] *)
  module_path : list string → string;
  (* base64 *)
  b64decode : string → Lib (list byte);
  b64encode : list byte → string;
  (* cv2 / numpy *)
  imdecode : list byte → Lib (option (ndarray Pixels));
  imencode : string → ndarray Pixels → bool * list byte;
  cvtColor_pixels : ColorCode → Pixels → Pixels;
  float32_div255_pixels : Pixels → Pixels;
  resize_pixels : ndarray Pixels → Z * Z → Pixels;
  zeros_pixels : Z * Z → Pixels;
  (* torch / pytorch_grad_cam *)
  permute_pixels : Pixels → Pixels;
  cam_call : CamExtractor → Tensor Pixels → option (list Z) → World
             → Lib Pixels * World;
  blend_pixels : Pixels → Pixels → Pixels;
  mobilenet_v3_small : World → Lib Classifier * World;
  GradCAM : Classifier → World → Lib CamExtractor * World;
  (* ultralytics *)
  path_exists : World → bool;
  YOLO : World → Lib Detector * World;
  names : Detector → gmap Z string;
  predict : Detector → ndarray Pixels → World → Lib unit * World;
  track : Detector → ndarray Pixels → string → bool → Q → Q → Z → World
          → Lib (list Results) * World;
  (* time, and the subtraction and product of Python floats that turn two
     clock readings into milliseconds *)
  perf_counter : World → Q * World;
  float_sub : Q → Q → Q;
  float_mul : Q → Q → Q;
}.

Section Monad.
Context {E : Externals}.

Local Abbreviation image := (ndarray Pixels).

(** [str(MODEL_PATH)] and [str(TRACKER_CONFIG)]: both files lie under the
    directory of [main.py]. *)
Definition MODEL_PATH : string := module_path ["models"; "best.pt"].
Definition TRACKER_CONFIG : string := module_path ["botsort.yaml"].

(** *** Shapes of the OpenCV and torch calls *)

(** [cv2.cvtColor(src, code)]: same shape. *)
Definition cvtColor (src : image) (code : ColorCode) : image :=
  {| shape := shape src; pixels := cvtColor_pixels code (pixels src) |}.

(** [np.float32(a) / 255]: same shape. *)
Definition float32_div255 (a : image) : image :=
  {| shape := shape a; pixels := float32_div255_pixels (pixels a) |}.

(** [cv2.resize(src, dsize)]: [dsize] is (width, height), the result has
    [dsize[1]] rows and [dsize[0]] columns. *)
Definition resize (src : image) (dsize : Z * Z) : image :=
  {| shape := (snd dsize, fst dsize); pixels := resize_pixels src dsize |}.

(** [np.zeros((rows, cols, 3), dtype=np.uint8)] *)
Definition zeros (shp : Z * Z) : image :=
  {| shape := shp; pixels := zeros_pixels shp |}.

(** [torch.from_numpy(a).permute(2, 0, 1).unsqueeze(0)]: (H, W, 3) becomes
    (1, 3, H, W). *)
Definition to_input_tensor (a : image) : Tensor Pixels :=
  {| tensor_shape := (1, 3, fst (shape a), snd (shape a));
     tensor_data := permute_pixels (pixels a) |}.

(** [cam_extractor(input_tensor=t, targets=targets)[0, :]]: the saliency
    map of the first batch entry, of the spatial size of the input. *)
Definition cam_first (cam : CamExtractor) (t : Tensor Pixels)
    (targets : option (list Z)) (w : World)
  : Lib image * World :=
  let '(_, _, th, tw) := tensor_shape t in
  match cam_call cam t targets w with
  | (Done p, w') => (Done {| shape := (th, tw); pixels := p |}, w')
  | (Fails e, w') => (Fails e, w')
  end.

Definition shape_eqb (a b : Z * Z) : bool :=
  Z.eqb (fst a) (fst b) && Z.eqb (snd a) (snd b).

(** [show_cam_on_image(img, mask, use_rgb=True)]: the coloured mask is
    added to the image cell by cell, which numpy refuses when the two
    shapes differ. *)
Definition show_cam_on_image (img mask : image) : Outcome image :=
  if shape_eqb (shape img) (shape mask)
  then Return {| shape := shape img;
                 pixels := blend_pixels (pixels img) (pixels mask) |}
  else Raise (PyError "operands could not be broadcast together").

(** *** Globals and the handler monad *)

Record Globals : Type := {
  model : option Detector;
  explain_model : option Classifier;
  cam_extractor : option CamExtractor;
}.

(** The module as imported: lines 38-40. *)
Definition initial_globals : Globals :=
  {| model := None; explain_model := None; cam_extractor := None |}.

Record State : Type := {
  globals : Globals;
  world : World;
}.

Definition M (A : Type) : Type := State → Outcome A * State.

Definition mreturn {A} (a : A) : M A := λ s, (Return a, s).

Definition raise {A} (e : Exception) : M A := λ s, (Raise e, s).

Definition bind {A B} (m : M A) (k : A → M B) : M B :=
  λ s, match m s with
       | (Return a, s') => k a s'
       | (Raise e, s') => (Raise e, s')
       end.

(** [try: m except Exception as e: handler(e)] *)
Definition try_except {A} (m : M A) (handler : Exception → M A) : M A :=
  λ s, match m s with
       | (Return a, s') => (Return a, s')
       | (Raise e, s') => handler e s'
       end.

Definition lift {A} (o : Outcome A) : M A := λ s, (o, s).

(** A library call that may touch the world but not the globals. *)
Definition call {A} (f : World → Lib A * World) : M A :=
  λ s, let '(r, w') := f (world s) in
       (of_lib r, {| globals := globals s; world := w' |}).

Definition read {A} (g : Globals → A) : M A := λ s, (Return (g (globals s)), s).

Definition assign (f : Globals → Globals) : M unit :=
  λ s, (Return tt, {| globals := f (globals s); world := world s |}).

Definition now : M Q :=
  call (λ w, let '(t, w') := perf_counter w in (Done t, w')).

End Monad.

Declare Scope handler_scope.
Delimit Scope handler_scope with handler.
Notation "x <- m ;; k" := (bind m (λ x, k))
  (at level 100, m at next level, right associativity) : handler_scope.

(** ** The application *)

Section Endpoints.
Context {E : Externals}.
Local Open Scope handler_scope.

(** *** [lifespan]: the code before and after [yield] *)

Definition lifespan_startup : M unit :=
  found <- call (λ w, (Done (path_exists w), w)) ;;
  if negb found
  then raise (PyError ("Model weights not found at " +:+ MODEL_PATH))
  else
    m <- call YOLO ;;
    _ <- assign (λ g, {| model := Some m;
                         explain_model := explain_model g;
                         cam_extractor := cam_extractor g |}) ;;
    _ <- call (predict m (zeros (640, 640))) ;;
    em <- call mobilenet_v3_small ;;
    _ <- assign (λ g, {| model := model g;
                         explain_model := Some em;
                         cam_extractor := cam_extractor g |}) ;;
    cam <- call (GradCAM em) ;;
    assign (λ g, {| model := model g;
                    explain_model := explain_model g;
                    cam_extractor := Some cam |}).

Definition lifespan_shutdown : M unit :=
  assign (λ g, {| model := None;
                  explain_model := explain_model g;
                  cam_extractor := cam_extractor g |}).

(** *** [GET /api/health] *)

Definition health_check : M HealthResponse :=
  m <- read model ;;
  mreturn {| status := "ok";
             model_loaded := bool_decide (is_Some m);
             model_path := MODEL_PATH_name;
             health_tracker := "botsort" |}.

(** *** [GET /api/model-info]

    [info_tracker] is the ["tracker"] key of the answer. *)

Record ModelInfo : Type := {
  model_name : string;
  model_type : string;
  info_tracker : string;
  classes : gmap Z string;
  num_classes : Z;
  input_size : Z;
  framework : string;
}.

Definition model_info : M ModelInfo :=
  m <- read model ;;
  match m with
  | None => raise (HTTPException 503 "Model not loaded")
  | Some m =>
      mreturn {| model_name := MODEL_PATH_stem;
                 model_type := "YOLOv8";
                 info_tracker := "BoT-SORT";
                 classes := names m;
                 num_classes := Z.of_nat (size (names m));
                 input_size := DEFAULT_IMGSZ;
                 framework := "PyTorch (ultralytics)" |}
  end.

(** *** Decoding the frame: the body of the [try] block shared by [detect]
    and [explain], which differ in the text of their [ValueError]. *)
Definition decode_frame (frame_b64 : string) (failed : string)
  : Outcome (ndarray Pixels) :=
  obind (of_lib (b64decode frame_b64)) (λ img_bytes,
  obind (of_lib (imdecode img_bytes)) (λ decoded,
  match decoded with
  | None => Raise (PyError failed)
  | Some f => Return f
  end)).

(** *** [POST /api/detect]

    The source repeats its [return] statement; the second is never
    reached. *)

Definition detect (req : DetectRequest) : M DetectResponse :=
  m <- read model ;;
  match m with
  | None => raise (HTTPException 503 "Model not loaded")
  | Some m =>
      fr <- try_except
              (lift (decode_frame (frame req) "Failed to decode image"))
              (λ e, raise (HTTPException 400
                             ("Invalid frame data: " +:+ str_of_exception e))) ;;
      let '(h, w) := shape fr in
      t0 <- now ;;
      results <- call (track m fr TRACKER_CONFIG true
                             (conf req) (iou req) (imgsz req)) ;;
      t1 <- now ;;
      let inference_ms := float_mul (float_sub t1 t0) 1000 in
      parsed <- lift (parse_results (names m) results w h) ;;
      let '(dets, counts) := parsed in
      mreturn {| detections := dets;
                 vehicle_count := Z.of_nat (length dets);
                 count_by_class := counts;
                 inference_time_ms := round inference_ms 2;
                 frame_width := w;
                 frame_height := h;
                 tracker := "botsort" |}
  end.

(** *** [POST /api/explain] *)

Definition explain (req : ExplainRequest) : M ExplainResponse :=
  cam <- read cam_extractor ;;
  match cam with
  | None => raise (HTTPException 503 "Explainability model not loaded")
  | Some cam =>
      t0 <- now ;;
      fr <- try_except
              (lift (decode_frame (explain_frame req) "Failed to decode"))
              (λ e, raise (HTTPException 400
                             ("Invalid frame: " +:+ str_of_exception e))) ;;
      let rgb_frame := cvtColor fr COLOR_BGR2RGB in
      let rgb_frame_float := float32_div255 rgb_frame in
      let input_tensor := to_input_tensor (resize rgb_frame_float (224, 224)) in
      let targets : option (list Z) := None in
      grayscale_cam <- call (cam_first cam input_tensor targets) ;;
      let '(h, w) := shape fr in
      let grayscale_cam_resized := resize grayscale_cam (w, h) in
      visualization <- lift (show_cam_on_image rgb_frame_float
                                               grayscale_cam_resized) ;;
      let vis_bgr := cvtColor visualization COLOR_RGB2BGR in
      let buffer := snd (imencode ".jpg" vis_bgr) in
      let b64_str := b64encode buffer in
      t1 <- now ;;
      let inference_ms := float_mul (float_sub t1 t0) 1000 in
      mreturn {| heatmap := b64_str;
                 explain_inference_time_ms := round inference_ms 2 |}
  end.

(** *** The running process

    The framework runs the code before [yield], serves requests one at a
    time (the handlers never await), turns an exception of a handler into
    an error answer, and runs the code after [yield] on the way out. *)

Inductive Request : Type :=
  | GetHealth
  | GetModelInfo
  | PostDetect (req : DetectRequest)
  | PostExplain (req : ExplainRequest).

Inductive Response : Type :=
  | HealthBody (r : HealthResponse)
  | ModelInfoBody (r : ModelInfo)
  | DetectBody (r : DetectResponse)
  | ExplainBody (r : ExplainResponse).

Definition handle (r : Request) : M Response :=
  match r with
  | GetHealth => b <- health_check ;; mreturn (HealthBody b)
  | GetModelInfo => b <- model_info ;; mreturn (ModelInfoBody b)
  | PostDetect req => b <- detect req ;; mreturn (DetectBody b)
  | PostExplain req => b <- explain req ;; mreturn (ExplainBody b)
  end.

Fixpoint serve (rs : list Request) (s : State)
  : list (Outcome Response) * State :=
  match rs with
  | [] => ([], s)
  | r :: rs' =>
      let '(o, s') := handle r s in
      let '(os, s'') := serve rs' s' in
      (o :: os, s'')
  end.

Definition lifespan (rs : list Request) (s : State)
  : Outcome (list (Outcome Response)) * State :=
  match lifespan_startup s with
  | (Raise e, s') => (Raise e, s')
  | (Return _, s') =>
      let '(os, s'') := serve rs s' in
      (Return os, snd (lifespan_shutdown s''))
  end.

End Endpoints.

(** ** The vocabulary of the properties *)

(** [sum(count_by_class.values())] *)
Definition sum_values (m : gmap string Z) : Z :=
  map_fold (λ _ v acc, v + acc) 0 m.

(** The boxes the loop walks over: [results[0].boxes], if any. *)
Definition first_boxes (results : list Results) : option Boxes :=
  match results with
  | r0 :: _ => boxes r0
  | [] => None
  end.

Definition raw_rows (results : list Results) : list BoxRow :=
  from_option data [] (first_boxes results).

Definition has_ids (results : list Results) : bool :=
  from_option is_track false (first_boxes results).


(** Running [f] over a list in order, stopping at the first exception. *)
Fixpoint collect {A B} (f : A → Outcome B) (l : list A) : Outcome (list B) :=
  match l with
  | [] => Return []
  | a :: l' =>
      obind (f a) (λ b, obind (collect f l') (λ bs, Return (b :: bs)))
  end.

(** The normalisation as [detect] computes it: centre and extent of the
    corner box, divided by the frame size and rounded to four places, in
    float32. *)
Definition normalized_bbox (xyxy : float32 * float32 * float32 * float32)
    (w h : Z) : BBox :=
  let '(x1, y1, x2, y2) := xyxy in
  {| x := float32_round
            (f32_div (f32_div (f32_add x1 x2) (of_int 2)) (of_int w)) 4;
     y := float32_round
            (f32_div (f32_div (f32_add y1 y2) (of_int 2)) (of_int h)) 4;
     width := float32_round (f32_div (f32_sub x2 x1) (of_int w)) 4;
     height := float32_round (f32_div (f32_sub y2 y1) (of_int h)) 4 |}.

(** The loop body in closed form, on the row it reads. *)
Definition detection_of_row (names : gmap Z string) (tracked : bool)
    (w h : Z) (row : BoxRow) : Outcome DetectionResult :=
  obind (int (row_cls row)) (λ cls_id,
  obind (if tracked then int (row_id row) else Return (-1)) (λ track_id,
  Return {| track_id := track_id;
            class_name := names_get names cls_id;
            class_id := cls_id;
            confidence := round (row_conf row) 4;
            bbox := normalized_bbox (row_xyxy row) w h |})).

(** The loop in closed form: the detections of all rows, or the exception
    of the first row that has one. *)
Definition parsed_rows (names : gmap Z string) (results : list Results)
    (w h : Z) : Outcome (list DetectionResult) :=
  collect (detection_of_row names (has_ids results) w h) (raw_rows results).

(** A row [int] accepts: its class cell is finite, and so is its id cell
    when the id column is read. *)
Definition is_finite (v : float32) : Prop := ∃ q, v = Finite q.

Definition row_parsable (tracked : bool) (row : BoxRow) : Prop :=
  is_finite (row_cls row) ∧ (tracked = true → is_finite (row_id row)).

(** The two messages of [int]. *)
Definition int_error (e : Exception) : Prop :=
  e = PyError "cannot convert float NaN to integer" ∨
  e = PyError "cannot convert float infinity to integer".

(** A box of rationals: what the formulas of the specification denote. *)
Record Rect : Type := {
  rect_x : Q;
  rect_y : Q;
  rect_width : Q;
  rect_height : Q;
}.

(** Centre and extent of the corner box [(x1, y1, x2, y2)], divided by the
    frame width and height. *)
Definition exact_bbox (xyxy : Q * Q * Q * Q) (w h : Z) : Rect :=
  let '(x1, y1, x2, y2) := xyxy in
  {| rect_x := (((x1 + x2) / 2) / inject_Z w)%Q;
     rect_y := (((y1 + y2) / 2) / inject_Z h)%Q;
     rect_width := ((x2 - x1) / inject_Z w)%Q;
     rect_height := ((y2 - y1) / inject_Z h)%Q |}.

(** The normalisation as the specification words it: centre and extent,
    divided by the frame width and height, each rounded to four places. *)
Definition normalized_bbox_spec (xyxy : Q * Q * Q * Q) (w h : Z) : Rect :=
  let '(x1, y1, x2, y2) := xyxy in
  let center_x := (((x1 + x2) / 2) / inject_Z w)%Q in
  let center_y := (((y1 + y2) / 2) / inject_Z h)%Q in
  let box_width := ((x2 - x1) / inject_Z w)%Q in
  let box_height := ((y2 - y1) / inject_Z h)%Q in
  {| rect_x := round center_x 4; rect_y := round center_y 4;
     rect_width := round box_width 4; rect_height := round box_height 4 |}.

Definition unit_interval (q : Q) : Prop := (0 <= q ∧ q <= 1)%Q.

(** A decimal with four places: an integer number of ten-thousandths. *)
Definition four_decimals (q : Q) : Prop := ∃ k : Z, q = (k # 10000)%Q.

(** A finite float32 whose value satisfies [P]. *)
Definition finite_with (P : Q → Prop) (v : float32) : Prop :=
  ∃ q, v = Finite q ∧ P q.


(** The float32 nearest to a decimal with four places between 0 and 1. *)
Definition nearest_four_places (v : float32) : Prop :=
  ∃ k : Z, 0 ≤ k ≤ 10000 ∧ v = f32_round (inject_Z k / 10000).

Definition bbox_fields (P : float32 → Prop) (b : BBox) : Prop :=
  P (x b) ∧ P (y b) ∧ P (width b) ∧ P (height b).

Definition bbox_in_unit_interval : BBox → Prop :=
  bbox_fields (finite_with unit_interval).


Definition bbox_nearest_four_places : BBox → Prop :=
  bbox_fields nearest_four_places.

(** An emitted box whose fields are finite and differ from those of [e] by
    at most [eps]. *)
Definition bbox_within (eps : Q) (b : BBox) (e : Rect) : Prop :=
  finite_with (λ q, Qabs (q - rect_x e) <= eps)%Q (x b) ∧
  finite_with (λ q, Qabs (q - rect_y e) <= eps)%Q (y b) ∧
  finite_with (λ q, Qabs (q - rect_width e) <= eps)%Q (width b) ∧
  finite_with (λ q, Qabs (q - rect_height e) <= eps)%Q (height b).

(** The float32 nearest to a decimal of four places that is [s] or lies
    next to it. *)
Definition rounded_like (v : float32) (s : Q) : Prop :=
  ∃ k : Z, v = f32_round (inject_Z k / 10000) ∧
           (Qabs (inject_Z k / 10000 - s) <= 1 # 10000)%Q.

Definition bbox_rounded_like (b : BBox) (s : Rect) : Prop :=
  rounded_like (x b) (rect_x s) ∧ rounded_like (y b) (rect_y s) ∧
  rounded_like (width b) (rect_width s) ∧
  rounded_like (height b) (rect_height s).

(** The corners of a row, when all four are finite. *)
Definition corners (row : BoxRow) : option (Q * Q * Q * Q) :=
  match row_xyxy row with
  | (Finite x1, Finite y1, Finite x2, Finite y2) => Some (x1, y1, x2, y2)
  | _ => None
  end.

(** A corner box that lies within a frame of [w] columns and [h] rows. *)
Definition inside (w h : Z) (xyxy : Q * Q * Q * Q) : Prop :=
  let '(x1, y1, x2, y2) := xyxy in
  (0 <= x1 ∧ x1 <= x2 ∧ x2 <= inject_Z w ∧
   0 <= y1 ∧ y1 <= y2 ∧ y2 <= inject_Z h)%Q.

Definition inside_frame (w h : Z) (row : BoxRow) : Prop :=
  ∃ xyxy, corners row = Some xyxy ∧ inside w h xyxy.

(** A frame side that float32 holds exactly. *)
Definition float32_side (n : Z) : Prop := 0 < n < 2 ^ 24.

(** The relative error of one float32 operation, and its absolute error
    where float32 is at its finest. *)
Definition u32 : Q := pow2 (-24).
Definition eta32 : Q := pow2 (-150).

(** A well-formed answer of [detect]: the count is the length of the
    list, the per-class counts add up to it, the tracker is named. *)
Definition well_formed (resp : DetectResponse) : Prop :=
  vehicle_count resp = Z.of_nat (length (detections resp)) ∧
  sum_values (count_by_class resp) = vehicle_count resp ∧
  tracker resp = "botsort".

Section Runs.
Context {E : Externals}.

(** [round((t1 - t0) * 1000, 2)] on two clock readings. *)
Definition elapsed_ms (t0 t1 : Q) : Q :=
  round (float_mul (float_sub t1 t0) 1000) 2.

(** The answer [detect] builds from the decoded frame, the detections
    parsed from what the tracker returned, and the two clock readings. *)
Definition detect_response (fr : ndarray Pixels)
    (dets : list DetectionResult) (t0 t1 : Q) : DetectResponse :=
  {| detections := dets;
     vehicle_count := Z.of_nat (length dets);
     count_by_class := foldl count_incr ∅ (class_name <$> dets);
     inference_time_ms := elapsed_ms t0 t1;
     frame_width := snd (shape fr);
     frame_height := fst (shape fr);
     tracker := "botsort" |}.

(** One pass through [detect] that reaches the tracker: the detector [m]
    is loaded, the frame decodes to [fr], and the tracker answers
    [results] between the clock readings [t0] and [t1]. *)
Record detect_run (req : DetectRequest) (st : State) (m : Detector)
    (fr : ndarray Pixels) (results : list Results) (t0 t1 : Q)
    (st' : State) : Prop := {
  run_model : model (globals st) = Some m;
  run_frame : decode_frame (frame req) "Failed to decode image" = Return fr;
  run_track : ∃ w0 w1,
    perf_counter (world st) = (t0, w0) ∧
    track m fr TRACKER_CONFIG true (conf req) (iou req) (imgsz req) w0
    = (Done results, w1) ∧
    perf_counter w1 = (t1, world st');
  run_globals : globals st' = globals st;
}.

(** The tensor handed to the CAM extractor for the frame [fr]. *)
Definition input_tensor_of (fr : ndarray Pixels) : Tensor Pixels :=
  to_input_tensor (resize (float32_div255 (cvtColor fr COLOR_BGR2RGB)) (224, 224)).

(** The saliency map, stretched back to the frame and laid over it. *)
Definition overlay_of (fr : ndarray Pixels) (saliency : Pixels) : ndarray Pixels :=
  let rgb_frame_float := float32_div255 (cvtColor fr COLOR_BGR2RGB) in
  let grayscale_cam := {| shape := (224, 224); pixels := saliency |} in
  let grayscale_cam_resized :=
    resize grayscale_cam (snd (shape fr), fst (shape fr)) in
  {| shape := shape fr;
     pixels := blend_pixels (pixels rgb_frame_float)
                            (pixels grayscale_cam_resized) |}.

Definition explain_response (fr : ndarray Pixels) (saliency : Pixels)
    (t0 t1 : Q) : ExplainResponse :=
  {| heatmap :=
       b64encode (snd (imencode ".jpg"
                         (cvtColor (overlay_of fr saliency) COLOR_RGB2BGR)));
     explain_inference_time_ms := elapsed_ms t0 t1 |}.

(** One pass through [explain] that reaches the end: the extractor [cam]
    is loaded, the frame decodes to [fr], and the extractor answers
    [saliency] between the clock readings [t0] and [t1]. *)
Record explain_run (req : ExplainRequest) (st : State) (cam : CamExtractor)
    (fr : ndarray Pixels) (saliency : Pixels) (t0 t1 : Q)
    (st' : State) : Prop := {
  xrun_cam : cam_extractor (globals st) = Some cam;
  xrun_frame : decode_frame (explain_frame req) "Failed to decode" = Return fr;
  xrun_call : ∃ w0 w1,
    perf_counter (world st) = (t0, w0) ∧
    cam_call cam (input_tensor_of fr) None w0 = (Done saliency, w1) ∧
    perf_counter w1 = (t1, world st');
  xrun_globals : globals st' = globals st;
}.

(** The state after [explain] has read the clock once. *)
Definition after_clock (st : State) : State :=
  {| globals := globals st; world := snd (perf_counter (world st)) |}.

(** A [frame] field the decoding step rejects: text that is not base64, or
    bytes (possibly none) that OpenCV raises on or decodes to [None]. *)
Inductive bad_frame (frame_b64 : string) : Prop :=
  | bad_base64 e :
      b64decode frame_b64 = Fails e → bad_frame frame_b64
  | bad_image_raises buf e :
      b64decode frame_b64 = Done buf → imdecode buf = Fails e →
      bad_frame frame_b64
  | bad_image_none buf :
      b64decode frame_b64 = Done buf → imdecode buf = Done None →
      bad_frame frame_b64.

(** The errors [detect] can end in: its own 503 and 400, and whatever the
    tracker or [int] raised, which it does not catch. *)
Inductive detect_error (req : DetectRequest) : Exception → Prop :=
  | detect_503 :
      detect_error req (HTTPException 503 "Model not loaded")
  | detect_400 msg :
      bad_frame (frame req) →
      detect_error req (HTTPException 400 ("Invalid frame data: " +:+ msg))
  | detect_uncaught msg :
      detect_error req (PyError msg).

(** The errors [explain] can end in. *)
Inductive explain_error (req : ExplainRequest) : Exception → Prop :=
  | explain_503 :
      explain_error req (HTTPException 503 "Explainability model not loaded")
  | explain_400 msg :
      bad_frame (explain_frame req) →
      explain_error req (HTTPException 400 ("Invalid frame: " +:+ msg))
  | explain_cam_failed msg :
      explain_error req (PyError msg).

(** A computation that leaves the three globals as it found them,
    whatever it answers. *)
Definition readonly {A} (m : M A) : Prop :=
  ∀ st, globals (snd (m st)) = globals st.

End Runs.

(** What the handlers rely on from the codecs: base64 text decodes back
    to the bytes it was made from, a JPEG decodes to an image of the size
    that was encoded, and no decoded image is empty. *)
Class CodecLaws (E : Externals) : Prop := {
  b64decode_b64encode :
    ∀ buf, b64decode (b64encode buf) = Done buf;
  imdecode_imencode :
    ∀ img : ndarray Pixels,
      0 < fst (shape img) → 0 < snd (shape img) →
      ∃ img', imdecode (snd (imencode ".jpg" img)) = Done (Some img') ∧
              shape img' = shape img;
  imdecode_positive :
    ∀ buf img, imdecode buf = Done (Some img) →
               0 < fst (shape img) ∧ 0 < snd (shape img);
}.

(** ** A small test bench for the libraries

    Deterministic stand-ins for what [main.py] imports, enough to run the
    handlers: base64 is the standard alphabet with padding, dropping
    foreign characters before decoding as Python does by default; a
    compressed image is its two dimensions in binary followed by the
    cells; the tracker replays a script; the clock ticks once per
    reading and its readings are subtracted and multiplied exactly. *)
Module Bench.

Definition alphabet : list ascii :=
  String.list_ascii_of_string
    "ABCDEFGHIJKLMNOPQRSTUVWXYZabcdefghijklmnopqrstuvwxyz0123456789+/".

Definition pad : ascii := "="%char.

Definition char_of_sextet (n : N) : ascii :=
  nth (N.to_nat n) alphabet pad.

Fixpoint position (c : ascii) (l : list ascii) (k : N) : option N :=
  match l with
  | [] => None
  | c' :: l' => if Ascii.eqb c c' then Some k else position c l' (N.succ k)
  end.

Definition sextet_of_char (c : ascii) : option N := position c alphabet 0%N.

Fixpoint encode_bytes (bs : list byte) : list ascii :=
  match bs with
  | [] => []
  | [a] =>
      let n := (Byte.to_N a * 16)%N in
      [char_of_sextet (n / 64); char_of_sextet (n mod 64); pad; pad]
  | [a; b] =>
      let n := (Byte.to_N a * 1024 + Byte.to_N b * 4)%N in
      [char_of_sextet (n / 4096); char_of_sextet ((n / 64) mod 64);
       char_of_sextet (n mod 64); pad]
  | a :: b :: c :: rest =>
      let n := (Byte.to_N a * 65536 + Byte.to_N b * 256 + Byte.to_N c)%N in
      char_of_sextet (n / 262144) :: char_of_sextet ((n / 4096) mod 64)
        :: char_of_sextet ((n / 64) mod 64) :: char_of_sextet (n mod 64)
        :: encode_bytes rest
  end.

Definition bad_padding : string := "Incorrect padding".

Definition byte_of (n : N) : Lib byte :=
  match Byte.of_N n with
  | Some b => Done b
  | None => Fails bad_padding
  end.

Definition sextet (c : ascii) : Lib N :=
  match sextet_of_char c with
  | Some n => Done n
  | None => Fails bad_padding
  end.

(** The bytes of a full group of four characters, and of the two padded
    groups that may end the text. *)
Definition bytes_of_quad (s1 s2 s3 s4 : N) : Lib (list byte) :=
  let n := (((s1 * 64 + s2) * 64 + s3) * 64 + s4)%N in
  lbind (byte_of (n / 65536)%N) (λ a,
  lbind (byte_of ((n / 256) mod 256)%N) (λ b,
  lbind (byte_of (n mod 256)%N) (λ c, Done [a; b; c]))).

Definition bytes_of_triple (s1 s2 s3 : N) : Lib (list byte) :=
  let n := ((s1 * 64 + s2) * 64 + s3)%N in
  lbind (byte_of (n / 1024)%N) (λ a,
  lbind (byte_of ((n / 4) mod 256)%N) (λ b, Done [a; b])).

Definition bytes_of_pair (s1 s2 : N) : Lib (list byte) :=
  lbind (byte_of ((s1 * 64 + s2) / 16)%N) (λ a, Done [a]).

Fixpoint decode_chars (cs : list ascii) : Lib (list byte) :=
  match cs with
  | [] => Done []
  | c1 :: c2 :: c3 :: c4 :: rest =>
      lbind (sextet c1) (λ s1,
      lbind (sextet c2) (λ s2,
      if Ascii.eqb c4 pad then
        match rest with
        | [] =>
            if Ascii.eqb c3 pad then bytes_of_pair s1 s2
            else lbind (sextet c3) (λ s3, bytes_of_triple s1 s2 s3)
        | _ :: _ => Fails bad_padding
        end
      else
        lbind (sextet c3) (λ s3,
        lbind (sextet c4) (λ s4,
        lbind (bytes_of_quad s1 s2 s3 s4) (λ hd,
        lbind (decode_chars rest) (λ tl, Done (hd ++ tl)))))))
  | _ => Fails bad_padding
  end.

Definition is_base64_char (c : ascii) : bool :=
  Ascii.eqb c pad || bool_decide (is_Some (sextet_of_char c)).

Definition bench_b64encode (bs : list byte) : string :=
  String.string_of_list_ascii (encode_bytes bs).

Definition bench_b64decode (s : string) : Lib (list byte) :=
  decode_chars (List.filter is_base64_char (String.list_ascii_of_string s)).

(** A positive number, least significant bit first, closed by [x02]. *)
Fixpoint pos_bytes (p : positive) : list byte :=
  match p with
  | xH => [x02]
  | xO p' => x00 :: pos_bytes p'
  | xI p' => x01 :: pos_bytes p'
  end.

Fixpoint bytes_pos (bs : list byte) : option (positive * list byte) :=
  match bs with
  | x02 :: rest => Some (xH, rest)
  | x00 :: rest =>
      match bytes_pos rest with
      | Some (p, rest') => Some (xO p, rest')
      | None => None
      end
  | x01 :: rest =>
      match bytes_pos rest with
      | Some (p, rest') => Some (xI p, rest')
      | None => None
      end
  | _ => None
  end.

Definition bench_imencode (ext : string) (img : ndarray (list byte))
  : bool * list byte :=
  match shape img with
  | (Zpos h, Zpos w) => (true, pos_bytes h ++ pos_bytes w ++ pixels img)
  | _ => (false, [])
  end.

Definition bench_imdecode (buf : list byte)
  : Lib (option (ndarray (list byte))) :=
  match buf with
  | [] => Fails "(-215:Assertion failed) !buf.empty()"
  | _ =>
      match bytes_pos buf with
      | Some (h, rest) =>
          match bytes_pos rest with
          | Some (w, cells) =>
              Done (Some {| shape := (Zpos h, Zpos w); pixels := cells |})
          | None => Done None
          end
      | None => Done None
      end
  end.

Record bench_world : Type := {
  weights_on_disk : bool;
  clock : Q;
  script : list (list Results);
}.

Definition tick (w : bench_world) : Q * bench_world :=
  (clock w, {| weights_on_disk := weights_on_disk w;
               clock := Qred (clock w + (1 # 100));
               script := script w |}).

(** The tracker answers with the next entry of the script. *)
Definition replay (w : bench_world) : Lib (list Results) * bench_world :=
  match script w with
  | [] => (Done [], w)
  | r :: rest =>
      (Done r, {| weights_on_disk := weights_on_disk w;
                    clock := clock w;
                    script := rest |})
  end.

Definition class_names : gmap Z string :=
  {[ 0 := "car"; 1 := "bus"; 2 := "truck" ]}.

(** The module lies in [/srv/backend]. *)
Definition bench_module_path (parts : list string) : string :=
  "/srv/backend" +:+ foldr (λ part rest, "/" +:+ part +:+ rest) "" parts.

Definition libs : Externals := {|
  World := bench_world;
  Pixels := list byte;
  Detector := gmap Z string;
  Classifier := unit;
  CamExtractor := unit;
  module_path := bench_module_path;
  b64decode := bench_b64decode;
  b64encode := bench_b64encode;
  imdecode := bench_imdecode;
  imencode := bench_imencode;
  cvtColor_pixels := λ _ p, p;
  float32_div255_pixels := λ p, p;
  resize_pixels := λ src _, pixels src;
  zeros_pixels := λ _, [];
  permute_pixels := λ p, p;
  cam_call := λ _ t _ w, (Done (tensor_data t), w);
  blend_pixels := λ p _, p;
  mobilenet_v3_small := λ w, (Done tt, w);
  GradCAM := λ _ w, (Done tt, w);
  path_exists := weights_on_disk;
  YOLO := λ w, (Done class_names, w);
  names := λ m, m;
  predict := λ _ _ w, (Done tt, w);
  track := λ _ _ _ _ _ _ _ w, replay w;
  perf_counter := tick;
  float_sub := λ a b, Qred (a - b);
  float_mul := λ a b, Qred (a * b);
|}.
(** A 100 x 100 frame as the client would post it. *)
Definition frame_100 : string :=
  bench_b64encode
    (snd (bench_imencode ".jpg" {| shape := (100, 100); pixels := [x2a] |})).

Definition cold (sc : list (list Results)) : @State libs :=
  @Build_State libs initial_globals
    {| weights_on_disk := true; clock := 0; script := sc |}.

(** The state in which requests are served: after the start-up code. *)
Definition ready (sc : list (list Results)) : @State libs :=
  snd (lifespan_startup (cold sc)).

(** The frame that [frame_100] decodes to. *)
Definition image_100 : ndarray (list byte) :=
  {| shape := (100, 100); pixels := [x2a] |}.

Definition request : DetectRequest :=
  {| frame := frame_100; conf := DEFAULT_CONF; iou := DEFAULT_IOU;
     imgsz := DEFAULT_IMGSZ |}.

Definition explain_request : ExplainRequest :=
  {| explain_frame := frame_100 |}.

(** The malformed text of the specification's example. *)
Definition garbled : DetectRequest :=
  {| frame := "not-base64!!"; conf := DEFAULT_CONF; iou := DEFAULT_IOU;
     imgsz := DEFAULT_IMGSZ |}.

Definition garbled_explain : ExplainRequest :=
  {| explain_frame := "not-base64!!" |}.

Definition box (x1 y1 x2 y2 : Q)
  : float32 * float32 * float32 * float32 :=
  (Finite x1, Finite y1, Finite x2, Finite y2).

Definition car_row : BoxRow :=
  {| row_xyxy := box 10 20 50 60; row_id := Finite 1;
     row_conf := 0.91234%Q; row_cls := Finite 0 |}.

Definition bus_row : BoxRow :=
  {| row_xyxy := box 30.5 0 100 99.75; row_id := Finite 2;
     row_conf := 0.5%Q; row_cls := Finite 1 |}.

(** A class the names table does not list. *)
Definition tram_row : BoxRow :=
  {| row_xyxy := box 0 0 12.375 7; row_id := Finite 3;
     row_conf := 0.45%Q; row_cls := Finite 7 |}.




(** A row whose class cell is not a number. *)
Definition blank_row : BoxRow :=
  {| row_xyxy := box 10 20 50 60; row_id := Finite 6;
     row_conf := 0.6%Q; row_cls := NaN |}.

Definition tracked (rows : list BoxRow) : list Results :=
  [ {| boxes := Some {| data := rows; is_track := true |} |} ].

Definition street : list Results := tracked [car_row; bus_row; car_row; tram_row].




Definition blank : list Results := tracked [car_row; blank_row].

(** Boxes the tracker gave no ids to. *)
Definition untracked : list Results :=
  [ {| boxes := Some {| data := [car_row; bus_row]; is_track := false |} |} ].

Definition empty_street : list Results :=
  [ {| boxes := Some {| data := []; is_track := false |} |} ].

(** The detections of a tracker result on the 100 x 100 frame. *)
Definition parsed (results : list Results) : list DetectionResult :=
  match parsed_rows class_names results 100 100 with
  | Return dets => dets
  | Raise _ => []
  end.


(** The state after a request that read the clock twice and consumed one
    entry of the script. *)
Definition served (rest : list (list Results)) : @State libs :=
  @Build_State libs (globals (ready rest))
    {| weights_on_disk := true; clock := 1 # 50; script := rest |}.

(** The check that sextet [n] survives the trip through its character. *)
Definition sextet_checks (n : N) : bool :=
  match sextet_of_char (char_of_sextet n) with
  | Some k => N.eqb k n
  | None => false
  end && negb (Ascii.eqb (char_of_sextet n) pad).

(** A machine on which the weights file is missing. *)
Definition no_weights : @State libs :=
  @Build_State libs initial_globals
    {| weights_on_disk := false; clock := 0; script := [] |}.

End Bench.

(** The answer of [detect] to [Bench.request] when the tracker returns
    [results]. *)
Definition bench_answer (results : list Results) : DetectResponse :=
  detect_response (E:=Bench.libs) Bench.image_100 (Bench.parsed results)
    0 (1 # 100).

(** The life of a process that answers a health probe, one detection and
    one explanation, then shuts down. *)
Definition bench_life
  : Outcome (list (Outcome Response)) * @State Bench.libs :=
  lifespan (E:=Bench.libs)
    [GetHealth; PostDetect Bench.request; PostExplain Bench.explain_request]
    (Bench.cold [Bench.street]).

Definition bench_life_answers : list (Outcome Response) :=
  match fst bench_life with
  | Return os => os
  | Raise _ => []
  end.

(** ** More vocabulary: counts per class, load order, rounding error *)

(** The number of detections that carry the class name [name]. *)
Definition count_name (name : string) (dets : list DetectionResult) : Z :=
  Z.of_nat (length (filter (λ d, class_name d = name) dets)).

(** The corner box, in pixels, that a client gets back from a normalised
    box on a frame of [w] by [h] pixels: centre minus and plus half the
    extent, times the frame size. *)
Definition corners_of (b : Rect) (w h : Z) : Q * Q * Q * Q :=
  (((rect_x b - rect_width b / 2) * inject_Z w)%Q,
   ((rect_y b - rect_height b / 2) * inject_Z h)%Q,
   ((rect_x b + rect_width b / 2) * inject_Z w)%Q,
   ((rect_y b + rect_height b / 2) * inject_Z h)%Q).

(** Two corner boxes that differ by at most [ex] across and [ey] down. *)
Definition corners_within (ex ey : Q) (c d : Q * Q * Q * Q) : Prop :=
  let '(c1, c2, c3, c4) := c in
  let '(d1, d2, d3, d4) := d in
  (Qabs (c1 - d1) <= ex ∧ Qabs (c2 - d2) <= ey ∧
   Qabs (c3 - d3) <= ex ∧ Qabs (c4 - d4) <= ey)%Q.

(** The values of the fields of an emitted box, when all are finite. *)
Definition bbox_values (b : BBox) (r : Rect) : Prop :=
  x b = Finite (rect_x r) ∧ y b = Finite (rect_y r) ∧
  width b = Finite (rect_width r) ∧ height b = Finite (rect_height r).

Section LoadOrder.
Context {E : Externals}.

(** The handles are set in the order the start-up code loads them: no
    extractor without its classifier, no classifier without the
    detector. *)
Definition loaded_in_order (g : Globals) : Prop :=
  (is_Some (cam_extractor g) → is_Some (explain_model g)) ∧
  (is_Some (explain_model g) → is_Some (model g)).

End LoadOrder.

(** ** The viewer script [tests/test.py]

    The script loads the detector, opens the video as a lazy stream of
    results and shows each annotated frame until a key with low byte
    ['q'] arrives.  What the libraries do at each step is given as data:
    one [Tick] per result of the stream, and how the stream, the loading
    and the closing of the windows end. *)
Module LiveView.

(** The two kinds of exception the script tells apart: [cv2.error], which
    its [except] clause catches, and every other. *)
Inductive Failure : Type :=
  | cv2_error (msg : string)
  | other_error (msg : string).

Inductive Gui (A : Type) : Type :=
  | Fine (a : A)
  | Broken (f : Failure).
Arguments Fine {A} a.
Arguments Broken {A} f.

Inductive Event (Frame : Type) : Type :=
  | Print (text : string)
  | Imshow (winname : string) (mat : Frame)
  | DestroyAllWindows.
Arguments Print {Frame} text.
Arguments Imshow {Frame} winname mat.
Arguments DestroyAllWindows {Frame}.

(** One turn of the loop: what [r.plot()], [cv2.imshow] and
    [cv2.waitKey(1)] do for this result. *)
Record Tick (Frame : Type) : Type := {
  plot : Gui Frame;
  imshow : Gui unit;
  waitKey : Gui Z;
}.
Arguments plot {Frame} _.
Arguments imshow {Frame} _.
Arguments waitKey {Frame} _.

(** [device = 0 if torch.cuda.is_available() else 'cpu'] *)
Definition device (cuda_is_available : bool) : Z + string :=
  if cuda_is_available then inl 0 else inr "cpu".

(** [cv2.waitKey(1) & 0xFF == ord('q')] *)
Definition quits (key : Z) : bool := Z.land key 255 =? 113.

Definition winname : string := "YOLOv8 Traffic Detection".

Definition starting : string := "Starting live detection... Press 'q' to stop.".

Definition no_gui : string :=
  String "010" "[ERROR] Your OpenCV installation does not support GUI windows.".

Definition fix_hint : string :=
  "Run: 'sudo pacman -S python-opencv' to fix this on Arch.".

(** [for r in results: ...]: the events of the loop and the exception it
    ends with, if any.  [last] is how the stream ends once its results
    are used up: [None] when it is exhausted, an exception otherwise. *)
Fixpoint show {Frame} (ticks : list (Tick Frame)) (last : option Failure)
  : list (Event Frame) * option Failure :=
  match ticks with
  | [] => ([], last)
  | r :: rest =>
      match plot r with
      | Broken f => ([], Some f)
      | Fine annotated_frame =>
          match imshow r with
          | Broken f => ([], Some f)
          | Fine _ =>
              match waitKey r with
              | Broken f => ([Imshow winname annotated_frame], Some f)
              | Fine key =>
                  if quits key then ([Imshow winname annotated_frame], None)
                  else
                    let '(events, raised) := show rest last in
                    (Imshow winname annotated_frame :: events, raised)
              end
          end
      end
  end.

(** The whole script.  [load] is the outcome of creating the detector and
    the stream, which happens before the [try]; [destroy] is the outcome
    of [cv2.destroyAllWindows()] in the [finally] clause.  An event is
    recorded for a call that returned: a call that raised leaves none. *)
Definition script {Frame} (load : Gui unit) (ticks : list (Tick Frame))
    (last : option Failure) (destroy : Gui unit)
  : list (Event Frame) * option Failure :=
  match load with
  | Broken f => ([], Some f)
  | Fine _ =>
      let '(shown, raised) := show ticks last in
      let '(printed, pending) :=
        match raised with
        | Some (cv2_error _) => ([Print no_gui; Print fix_hint], None)
        | Some (other_error msg) => ([], Some (other_error msg))
        | None => ([], None)
        end in
      let events := Print starting :: shown ++ printed in
      match destroy with
      | Broken f => (events, Some f)
      | Fine _ => (events ++ [DestroyAllWindows], pending)
      end
  end.

(** What is left pending when the loop ends with [raised]: a [cv2.error]
    is caught, any other exception waits for the [finally] clause. *)
Definition pending_after (raised : option Failure) : option Failure :=
  match raised with
  | Some (other_error msg) => Some (other_error msg)
  | _ => None
  end.

(** A turn on which every call works and [waitKey] returns [key]. *)
Definition turn {Frame} (annotated_frame : Frame) (key : Z) : Tick Frame :=
  {| plot := Fine annotated_frame; imshow := Fine tt; waitKey := Fine key |}.

End LiveView.

(** ** Counting *)

Lemma sum_values_empty : sum_values ∅ = 0.
Proof. apply map_fold_empty. Qed.

Lemma sum_values_insert (m : gmap string Z) k v :
  m !! k = None → sum_values (<[k := v]> m) = v + sum_values m.
Proof.
  intros Hk. unfold sum_values.
  apply (map_fold_insert_L (λ _ v acc, v + acc)); [|done].
  intros; lia.
Qed.

Lemma sum_values_count_incr (m : gmap string Z) k :
  sum_values (count_incr m k) = sum_values m + 1.
Proof.
  unfold count_incr. destruct (m !! k) as [v|] eqn:Hk; simpl.
  - rewrite <- (insert_delete_id m k v Hk) at 2.
    rewrite <- (insert_delete_eq m k (v + 1)).
    rewrite !sum_values_insert by apply lookup_delete_eq. lia.
  - rewrite sum_values_insert by done. lia.
Qed.

Lemma sum_values_foldl (ks : list string) : ∀ counts,
  sum_values (foldl count_incr counts ks) = sum_values counts + Z.of_nat (length ks).
Proof.
  induction ks as [|k ks IH]; intros counts; cbn [foldl length].
  - lia.
  - rewrite IH, sum_values_count_incr. lia.
Qed.

(** ** What the loop computes *)

Lemma index_fmap {A B} (f : A → B) (l : list A) i a :
  l !! i = Some a → index (f <$> l) i = Return (f a).
Proof. intros H. unfold index. by rewrite list_lookup_fmap, H. Qed.

Lemma collect_Return {A B} (f : A → Outcome B) l : ∀ bs,
  collect f l = Return bs ↔ Forall2 (λ a b, f a = Return b) l bs.
Proof.
  induction l as [|a l IH]; intros bs; cbn [collect].
  - split.
    + intros [= <-]. constructor.
    + intros H. by apply Forall2_nil_inv_l in H as ->.
  - split.
    + destruct (f a) as [b|e] eqn:Hb; cbn [obind]; [|discriminate].
      destruct (collect f l) as [bs'|e]; cbn [obind]; [|discriminate].
      intros [= <-]. constructor; [done|]. by apply IH.
    + intros H. apply Forall2_cons_inv_l in H as (b & bs' & Hb & Hrest & ->).
      rewrite Hb. cbn [obind]. apply IH in Hrest. by rewrite Hrest.
Qed.

Lemma collect_lookup {A B} (f : A → Outcome B) l bs i a :
  collect f l = Return bs → l !! i = Some a →
  ∃ b, bs !! i = Some b ∧ f a = Return b.
Proof.
  intros Hc Ha. apply collect_Return in Hc.
  destruct (Forall2_lookup_l _ _ _ _ _ Hc Ha) as (b & Hb & Hf). eauto.
Qed.

Lemma collect_elem_of {A B} (f : A → Outcome B) l bs b :
  collect f l = Return bs → b ∈ bs → ∃ a, a ∈ l ∧ f a = Return b.
Proof.
  intros Hc Hb. apply collect_Return in Hc.
  apply list_elem_of_lookup in Hb as [i Hi].
  destruct (Forall2_lookup_r _ _ _ _ _ Hc Hi) as (a & Ha & Hf).
  exists a. split; [by eapply list_elem_of_lookup_2|done].
Qed.

Lemma collect_length {A B} (f : A → Outcome B) l bs :
  collect f l = Return bs → length bs = length l.
Proof.
  intros Hc. apply collect_Return in Hc. symmetry. by eapply Forall2_length.
Qed.

Lemma collect_Raise {A B} (f : A → Outcome B) l e :
  collect f l = Raise e → ∃ a, a ∈ l ∧ f a = Raise e.
Proof.
  induction l as [|a l IH]; cbn [collect]; [discriminate|].
  destruct (f a) as [b|e'] eqn:Hb; cbn [obind].
  - destruct (collect f l) as [bs|e']; cbn [obind]; [discriminate|].
    intros [= <-]. destruct (IH eq_refl) as (a' & Hin & Ha').
    exists a'. split; [by right|done].
  - intros [= <-]. exists a. split; [by left|done].
Qed.

Lemma collect_all {A B} (f : A → Outcome B) l :
  Forall (λ a, ∃ b, f a = Return b) l → ∃ bs, collect f l = Return bs.
Proof.
  induction 1 as [|a l [b Hb] _ [bs Hbs]]; cbn [collect].
  - by eexists.
  - rewrite Hb, Hbs. by eexists.
Qed.

Lemma parse_box_lookup names bs w h i row :
  data bs !! i = Some row →
  parse_box names bs w h i = detection_of_row names (is_track bs) w h row.
Proof.
  intros Hrow. unfold parse_box, boxes_xyxy, boxes_conf, boxes_cls, boxes_id.
  rewrite (index_fmap _ _ _ _ Hrow). cbn [obind].
  unfold detection_of_row, normalized_bbox.
  destruct (row_xyxy row) as [[[x1 y1] x2] y2].
  rewrite !(index_fmap _ _ _ _ Hrow). cbn [obind].
  destruct (int (row_cls row)) as [cls_id|e]; cbn [obind]; [|reflexivity].
  destruct (is_track bs); [rewrite (index_fmap _ _ _ _ Hrow)|]; reflexivity.
Qed.

Lemma parse_loop_seq names bs w h n : ∀ k dets counts,
  (k + n ≤ len bs)%nat →
  parse_loop names bs w h (seq k n) dets counts =
  obind (collect (detection_of_row names (is_track bs) w h)
           (take n (drop k (data bs))))
    (λ ds, Return (dets ++ ds, foldl count_incr counts (class_name <$> ds))).
Proof.
  induction n as [|n IH]; intros k dets counts Hk; cbn [seq parse_loop].
  - rewrite take_0. cbn. by rewrite app_nil_r.
  - destruct (lookup_lt_is_Some_2 (data bs) k) as [row Hrow];
      [unfold len in Hk; lia|].
    rewrite (parse_box_lookup _ _ _ _ _ _ Hrow).
    rewrite (drop_S _ _ _ Hrow). cbn [take collect].
    destruct (detection_of_row _ _ _ _ row) as [d|e]; cbn [obind];
      [|reflexivity].
    rewrite IH by lia.
    destruct (collect _ _) as [ds|e]; cbn [obind]; [|reflexivity].
    cbn [fmap list_fmap foldl]. by rewrite <- app_assoc.
Qed.

Lemma parse_results_closed names results w h :
  parse_results names results w h =
  obind (parsed_rows names results w h)
    (λ ds, Return (ds, foldl count_incr ∅ (class_name <$> ds))).
Proof.
  unfold parse_results, parsed_rows, raw_rows, has_ids, first_boxes.
  destruct results as [|r0 rest]; [reflexivity|].
  destruct (boxes r0) as [bs|]; [|reflexivity].
  rewrite parse_loop_seq by (cbn; lia).
  cbn [from_option]. unfold len. by rewrite drop_0, firstn_all.
Qed.

(** What a detection says about the row it was made from. *)
Lemma detection_of_row_Return names tracked w h row d :
  detection_of_row names tracked w h row = Return d →
  (∃ cls, row_cls row = Finite cls ∧ class_id d = trunc cls) ∧
  class_name d = names_get names (class_id d) ∧
  confidence d = round (row_conf row) 4 ∧
  bbox d = normalized_bbox (row_xyxy row) w h ∧
  (tracked = false → track_id d = -1) ∧
  (tracked = true → ∃ t, row_id row = Finite t ∧ track_id d = trunc t).
Proof.
  unfold detection_of_row.
  destruct (row_cls row) as [cls| |]; cbn [int obind]; try discriminate.
  destruct tracked.
  - destruct (row_id row) as [t| |]; cbn [int obind]; try discriminate.
    intros [= <-]. cbn. repeat split; eauto. discriminate.
  - cbn [obind]. intros [= <-]. cbn. repeat split; eauto. discriminate.
Qed.

Lemma detection_of_row_parsable names tracked w h row :
  row_parsable tracked row →
  ∃ d, detection_of_row names tracked w h row = Return d.
Proof.
  intros [[cls Hcls] Hid]. unfold detection_of_row. rewrite Hcls.
  cbn [int obind]. destruct tracked.
  - destruct (Hid eq_refl) as [t ->]. cbn [int obind]. by eexists.
  - cbn [obind]. by eexists.
Qed.

Lemma detection_of_row_Raise names tracked w h row e :
  detection_of_row names tracked w h row = Raise e →
  int_error e ∧ ¬ row_parsable tracked row.
Proof.
  unfold detection_of_row, int_error, row_parsable, is_finite.
  destruct (row_cls row) as [cls| |]; cbn [int obind].
  - destruct tracked; cbn [obind]; [|discriminate].
    destruct (row_id row) as [t| |]; cbn [int obind]; [discriminate|..];
      intros [= <-]; (split; [by auto|]); intros [_ Hid];
      by destruct (Hid eq_refl).
  - intros [= <-]. split; [by auto|]. by intros [[? ?] _].
  - intros [= <-]. split; [by auto|]. by intros [[? ?] _].
Qed.

Lemma parsed_rows_parsable names results w h :
  Forall (row_parsable (has_ids results)) (raw_rows results) →
  ∃ dets, parsed_rows names results w h = Return dets.
Proof.
  intros Hall. apply collect_all. eapply Forall_impl; [exact Hall|].
  intros row. apply detection_of_row_parsable.
Qed.

Lemma parsed_rows_Raise names results w h e :
  parsed_rows names results w h = Raise e →
  int_error e ∧ ¬ Forall (row_parsable (has_ids results)) (raw_rows results).
Proof.
  intros Hc. apply collect_Raise in Hc as (row & Hin & Hrow).
  apply detection_of_row_Raise in Hrow as [He Hno].
  split; [done|]. intros Hall. rewrite Forall_forall in Hall. by apply Hno, Hall.
Qed.

Lemma corners_Some row x1 y1 x2 y2 :
  corners row = Some (x1, y1, x2, y2) →
  row_xyxy row = (Finite x1, Finite y1, Finite x2, Finite y2).
Proof.
  unfold corners. destruct (row_xyxy row) as [[[a b] c] d].
  destruct a, b, c, d; try discriminate. by intros [= -> -> -> ->].
Qed.

(** ** Rounding *)

Section Rounding.
Local Open Scope Q_scope.

Lemma round_half_even_bounds (a b : Z) (q : Q) :
  inject_Z a <= q → q <= inject_Z b →
  (a ≤ round_half_even q ≤ b)%Z.
Proof.
  intros Ha Hb. unfold round_half_even.
  assert (Hfa : (a ≤ Qfloor q)%Z).
  { rewrite <- (Qfloor_Z a). by apply Qfloor_resp_le. }
  assert (Hfb : (Qfloor q ≤ b)%Z).
  { rewrite <- (Qfloor_Z b). by apply Qfloor_resp_le. }
  assert (Hup : 0 < q - inject_Z (Qfloor q) → (Qfloor q + 1 ≤ b)%Z).
  { intros Hpos.
    assert (Hlt : inject_Z (Qfloor q) < inject_Z b).
    { apply Qlt_le_trans with q; [|done].
      apply Qlt_minus_iff. exact Hpos. }
    rewrite <- Zlt_Qlt in Hlt. lia. }
  destruct (Qcompare_spec (q - inject_Z (Qfloor q)) (1 # 2)) as [Heq|Hlt|Hgt].
  - destruct (Z.even (Qfloor q)); [lia|].
    split; [lia|]. apply Hup. rewrite Heq. reflexivity.
  - lia.
  - split; [lia|]. apply Hup. by apply Qlt_trans with (1 # 2).
Qed.

Lemma round_half_even_error q :
  Qabs (inject_Z (round_half_even q) - q) <= 1 # 2.
Proof.
  apply Qabs_Qle_condition. unfold round_half_even.
  pose proof (Qfloor_le q) as Hlo. pose proof (Qlt_floor q) as Hhi.
  rewrite inject_Z_plus in Hhi. change (inject_Z 1) with 1 in Hhi.
  destruct (Qcompare_spec (q - inject_Z (Qfloor q)) (1 # 2)) as [Heq|Hlt|Hgt].
  - destruct (Z.even (Qfloor q)).
    + split; lra.
    + rewrite inject_Z_plus. change (inject_Z 1) with 1. split; lra.
  - split; lra.
  - rewrite inject_Z_plus. change (inject_Z 1) with 1. split; lra.
Qed.

Lemma Qmake_scaled (k : Z) (p : positive) :
  (k # p) * inject_Z (Zpos p) == inject_Z k.
Proof. unfold Qeq, Qmult, inject_Z. cbn [Qnum Qden]. lia. Qed.

(** *** Python's [round] and [int] *)

Lemma round4_four_decimals q : four_decimals (round q 4).
Proof. eexists. reflexivity. Qed.

Lemma round4_unit_interval q : unit_interval q → unit_interval (round q 4).
Proof.
  intros [H0 H1]. unfold round, unit_interval. cbn [Pos.of_nat Pos.pow].
  change (Pos.pow 10 (Pos.of_nat 4)) with 10000%positive.
  destruct (round_half_even_bounds 0 10000 (q * inject_Z 10000)) as [Hlo Hhi].
  - change (inject_Z 0) with 0. change (inject_Z 10000) with 10000. lra.
  - change (inject_Z 10000) with 10000. lra.
  - unfold Qle. cbn [Qnum Qden]. lia.
Qed.

Lemma round4_error q : Qabs (round q 4 - q) <= 1 # 20000.
Proof.
  change (round q 4) with (round_half_even (q * inject_Z 10000) # 10000).
  pose proof (round_half_even_error (q * inject_Z 10000)) as Herr.
  pose proof (Qmake_scaled (round_half_even (q * inject_Z 10000)) 10000) as Hk.
  apply Qabs_Qle_condition in Herr. apply Qabs_Qle_condition.
  set (r := round_half_even (q * inject_Z 10000) # 10000) in *.
  set (k := inject_Z (round_half_even (q * inject_Z 10000))) in *.
  change (inject_Z 10000) with 10000 in *.
  split; lra.
Qed.



(** *** Powers of two *)

Lemma pow2_pos e : 0 < pow2 e.
Proof. by apply Qpower_0_lt. Qed.

Lemma pow2_add a b : pow2 (a + b) == pow2 a * pow2 b.
Proof. by apply Qpower_plus. Qed.

Lemma pow2_le a b : (a ≤ b)%Z → pow2 a <= pow2 b.
Proof. intros H. by apply Qpower_le_compat_l. Qed.

Lemma pow2_lt a b : (a < b)%Z → pow2 a < pow2 b.
Proof. intros H. by apply Qpower_lt_compat_l. Qed.

Lemma pow2_Z n : (0 ≤ n)%Z → pow2 n == inject_Z (2 ^ n).
Proof. intros H. unfold pow2. by rewrite Zpower_Qpower. Qed.

Lemma pow2_cancel a : pow2 a * pow2 (- a) == 1.
Proof. rewrite <- pow2_add, Z.add_opp_diag_r. reflexivity. Qed.

Lemma Qabs_make q : Qabs q == inject_Z (Z.abs (Qnum q)) / inject_Z (Zpos (Qden q)).
Proof.
  destruct q as [n d]. unfold Qabs. cbn [Qnum Qden].
  rewrite (Qmake_Qdiv (Z.abs n) d). reflexivity.
Qed.


Lemma scale_le (c a b : Q) : 0 <= c → a <= b → c * a <= c * b.
Proof. intros Hc Hab. rewrite !(Qmult_comm c). by apply Qmult_le_compat_r. Qed.

(** [ilog2 q] is at most the binary logarithm of [|q|]. *)
Lemma ilog2_le q : ¬ q == 0 → pow2 (ilog2 q) <= Qabs q.
Proof.
  intros Hq. unfold ilog2.
  set (n := Z.abs (Qnum q)). set (d := Zpos (Qden q)).
  destruct (Qle_bool _ _) eqn:Hb; [by apply Qle_bool_iff|].
  assert (Hn : (0 < n)%Z).
  { subst n. destruct q as [[|p|p] dd]; cbn; try lia. exfalso. by apply Hq. }
  assert (Hd : (0 < d)%Z) by (subst d; lia).
  destruct (Z.log2_spec n Hn) as [Hn1 _].
  destruct (Z.log2_spec d Hd) as [_ Hd2].
  pose proof (Z.log2_nonneg n) as Hln. pose proof (Z.log2_nonneg d) as Hld.
  rewrite Qabs_make. fold n d.
  assert (HdQ : 0 < inject_Z d) by (change 0 with (inject_Z 0); by rewrite <- Zlt_Qlt).
  apply Qle_shift_div_l; [done|].
  assert (Hsplit : pow2 (Z.log2 n) == pow2 (Z.log2 n - Z.log2 d - 1) * pow2 (Z.succ (Z.log2 d))).
  { rewrite <- pow2_add. by replace (Z.log2 n - Z.log2 d - 1 + Z.succ (Z.log2 d))%Z
      with (Z.log2 n) by lia. }
  assert (HnQ : pow2 (Z.log2 n) <= inject_Z n).
  { rewrite pow2_Z by done. by rewrite <- Zle_Qle. }
  assert (HdQ2 : inject_Z d <= pow2 (Z.succ (Z.log2 d))).
  { rewrite pow2_Z by lia. rewrite <- Zle_Qle. lia. }
  pose proof (pow2_pos (Z.log2 n - Z.log2 d - 1)) as HA.
  set (A := pow2 (Z.log2 n - Z.log2 d - 1)) in *.
  set (B := pow2 (Z.succ (Z.log2 d))) in *.
  set (C := pow2 (Z.log2 n)) in *.
  nra.
Qed.

(** ... and more than that logarithm less one: it is its integer part. *)
Lemma ilog2_lt q : ¬ q == 0 → Qabs q < pow2 (ilog2 q + 1).
Proof.
  intros Hq. unfold ilog2.
  set (n := Z.abs (Qnum q)). set (d := Zpos (Qden q)).
  destruct (Qle_bool _ _) eqn:Hb.
  2:{ replace (Z.log2 n - Z.log2 d - 1 + 1)%Z with (Z.log2 n - Z.log2 d)%Z by lia.
      apply Qnot_le_lt. intros Hle. apply Qle_bool_iff in Hle. congruence. }
  assert (Hn : (0 < n)%Z).
  { subst n. destruct q as [[|p|p] dd]; cbn; try lia. exfalso. by apply Hq. }
  assert (Hd : (0 < d)%Z) by (subst d; lia).
  destruct (Z.log2_spec n Hn) as [_ Hn2].
  destruct (Z.log2_spec d Hd) as [Hd1 _].
  pose proof (Z.log2_nonneg n) as Hln. pose proof (Z.log2_nonneg d) as Hld.
  rewrite Qabs_make. fold n d.
  assert (HdQ : 0 < inject_Z d) by (change 0 with (inject_Z 0); by rewrite <- Zlt_Qlt).
  apply Qlt_shift_div_r; [done|].
  assert (Hsplit : pow2 (Z.succ (Z.log2 n))
                   == pow2 (Z.log2 n - Z.log2 d + 1) * pow2 (Z.log2 d)).
  { rewrite <- pow2_add. by replace (Z.log2 n - Z.log2 d + 1 + Z.log2 d)%Z
      with (Z.succ (Z.log2 n)) by lia. }
  assert (HnQ : inject_Z n < pow2 (Z.succ (Z.log2 n))).
  { rewrite pow2_Z by lia. by rewrite <- Zlt_Qlt. }
  assert (HdQ2 : pow2 (Z.log2 d) <= inject_Z d).
  { rewrite pow2_Z by lia. by rewrite <- Zle_Qle. }
  pose proof (pow2_pos (Z.log2 n - Z.log2 d + 1)) as HA.
  assert (Hle : pow2 (Z.log2 n - Z.log2 d + 1) * pow2 (Z.log2 d)
                <= pow2 (Z.log2 n - Z.log2 d + 1) * inject_Z d)
    by (apply scale_le; lra).
  lra.
Qed.

Lemma round_to_exponent_error e q :
  Qabs (round_to_exponent e q - q) <= pow2 e * (1 # 2).
Proof.
  unfold round_to_exponent.
  pose proof (round_half_even_error (q / pow2 e)) as Herr.
  pose proof (pow2_pos e) as Hpos.
  assert (Hq : q == (q / pow2 e) * pow2 e) by (field; lra).
  apply Qabs_Qle_condition in Herr. apply Qabs_Qle_condition.
  set (y := q / pow2 e) in *. set (k := inject_Z (round_half_even y)) in *.
  set (p := pow2 e) in *.
  rewrite Hq. split; nra.
Qed.

Lemma f32_exponent_spec q :
  ¬ q == 0 →
  (-149 ≤ f32_exponent q)%Z ∧
  (pow2 (f32_exponent q) <= pow2 (-23) * Qabs q ∨ f32_exponent q = (-149)%Z).
Proof.
  intros Hq. unfold f32_exponent. split; [lia|].
  destruct (Z.max_spec (ilog2 q - 23) (-149)) as [[_ ->]|[_ ->]]; [by right|left].
  replace (ilog2 q - 23)%Z with (-23 + ilog2 q)%Z by lia.
  rewrite pow2_add. apply Qmult_le_l; [apply pow2_pos|]. by apply ilog2_le.
Qed.

Lemma f32_nearest_error q :
  Qabs (f32_nearest q - q) <= u32 * Qabs q + eta32.
Proof.
  unfold f32_nearest. pose proof (Qabs_nonneg q) as Habs.
  pose proof (pow2_pos (-24)) as Hu. pose proof (pow2_pos (-150)) as Heta.
  fold u32 in Hu. fold eta32 in Heta.
  destruct (Qeq_bool q 0) eqn:Hz.
  - apply Qeq_bool_iff in Hz. rewrite Hz.
    change (Qabs (0 - 0)) with 0. change (Qabs 0) with 0. lra.
  - apply Qeq_bool_neq in Hz.
    eapply Qle_trans; [apply round_to_exponent_error|].
    destruct (f32_exponent_spec q Hz) as [_ [Hle| ->]].
    + assert (Hs : pow2 (-23) * (1 # 2) == u32).
      { unfold u32. change (1 # 2) with (pow2 (-1)). by rewrite <- pow2_add. }
      set (p := pow2 (f32_exponent q)) in *. set (a := Qabs q) in *.
      set (c := pow2 (-23)) in *. nra.
    + assert (Hs : pow2 (-149) * (1 # 2) == eta32).
      { unfold eta32. change (1 # 2) with (pow2 (-1)). by rewrite <- pow2_add. }
      set (a := Qabs q) in *. nra.
Qed.

Lemma f32_exponent_le q k :
  ¬ q == 0 → (-149 ≤ k)%Z → Qabs q < pow2 (k + 24) → (f32_exponent q ≤ k)%Z.
Proof.
  intros Hq Hk Hlt. unfold f32_exponent.
  apply Z.max_lub; [|done].
  assert (Hl : pow2 (ilog2 q) < pow2 (k + 24)).
  { eapply Qle_lt_trans; [by apply ilog2_le|done]. }
  apply Qpower_lt_compat_l_inv in Hl; [lia|reflexivity].
Qed.

(** Rounding does not cross a number of the grid it rounds to. *)
Lemma f32_nearest_between (k a b : Z) q :
  (-149 ≤ k)%Z →
  inject_Z a * pow2 k <= q → q <= inject_Z b * pow2 k →
  Qabs q < pow2 (k + 24) →
  inject_Z a * pow2 k <= f32_nearest q ∧ f32_nearest q <= inject_Z b * pow2 k.
Proof.
  intros Hk Ha Hb Hlt. unfold f32_nearest.
  destruct (Qeq_bool q 0) eqn:Hz.
  - apply Qeq_bool_iff in Hz. rewrite Hz in Ha, Hb. by split.
  - apply Qeq_bool_neq in Hz.
    pose proof (f32_exponent_le q k Hz Hk Hlt) as He.
    set (e := f32_exponent q) in *. unfold round_to_exponent.
    pose proof (pow2_pos e) as Hpe.
    assert (Hke : pow2 k == inject_Z (2 ^ (k - e)) * pow2 e).
    { rewrite <- pow2_Z by lia. rewrite <- pow2_add.
      by replace (k - e + e)%Z with k by lia. }
    destruct (round_half_even_bounds (a * 2 ^ (k - e)) (b * 2 ^ (k - e)) (q / pow2 e))
      as [Hlo Hhi].
    + apply Qle_shift_div_l; [done|]. rewrite inject_Z_mult, <- Qmult_assoc, <- Hke. done.
    + apply Qle_shift_div_r; [done|]. rewrite inject_Z_mult, <- Qmult_assoc, <- Hke. done.
    + rewrite Zle_Qle, inject_Z_mult in Hlo. rewrite Zle_Qle, inject_Z_mult in Hhi.
      rewrite Hke, !Qmult_assoc.
      split; (apply Qmult_le_compat_r; [done|lra]).
Qed.


Lemma pow2_0 : pow2 0 == 1.
Proof. reflexivity. Qed.

Lemma pow2_1 : pow2 1 == 2.
Proof. reflexivity. Qed.

Lemma u32_small : u32 <= 6 # 100000000.
Proof. apply Qle_bool_iff. vm_compute. reflexivity. Qed.

Lemma eta32_small : eta32 <= 1 # 100000000.
Proof. apply Qle_bool_iff. vm_compute. reflexivity. Qed.

Lemma u32_pos : 0 < u32.
Proof. apply pow2_pos. Qed.

Lemma eta32_pos : 0 < eta32.
Proof. apply pow2_pos. Qed.

(** An error of [z * W] that is at most [c * W] is an error of [z] of at
    most [c]. *)
Lemma scaled_error (z W c : Q) : 0 < W → Qabs (z * W) <= c * W → Qabs z <= c.
Proof.
  intros HW H. apply Qabs_Qle_condition in H as [Hlo Hhi].
  apply Qabs_Qle_condition. split.
  - apply (Qmult_le_r _ _ W HW). lra.
  - by apply (Qmult_le_r _ _ W HW).
Qed.

(** A sum, quotient or product that lies between 0 and a float32 integer
    bound [B] rounds to a finite float32 within the same bounds, off by at
    most [u32 * B + eta32]. *)
Lemma f32_round_range (k b : Z) q :
  (0 ≤ k ≤ 1)%Z → (0 ≤ b < 2 ^ 24)%Z →
  0 <= q → q <= inject_Z b * pow2 k →
  ∃ r, f32_round q = Finite r ∧ 0 <= r ∧ r <= inject_Z b * pow2 k ∧
       Qabs (r - q) <= u32 * q + eta32.
Proof.
  intros Hk Hb H0 Hq.
  assert (Hlt : Qabs q < pow2 (k + 24)).
  { rewrite Qabs_pos by done. eapply Qle_lt_trans; [exact Hq|].
    rewrite (Z.add_comm k 24), pow2_add.
    apply Qmult_lt_compat_r; [apply pow2_pos|].
    rewrite pow2_Z by lia. rewrite <- Zlt_Qlt. lia. }
  destruct (f32_nearest_between k 0 b q) as [Hlo Hhi];
    [lia|change (inject_Z 0) with 0; lra|done|done|].
  change (inject_Z 0) with 0 in Hlo.
  pose proof (f32_nearest_error q) as Herr. rewrite (Qabs_pos q) in Herr by done.
  exists (Qred (f32_nearest q)).
  split; [|rewrite Qred_correct; split; [lra|split; [done|done]]].
  unfold f32_round. cbv zeta.
  destruct (Qle_bool (pow2 128) (Qabs (f32_nearest q))) eqn:Hover; [|reflexivity].
  exfalso. apply Qle_bool_iff in Hover. rewrite Qabs_pos in Hover by lra.
  assert (Hbig : inject_Z b * pow2 k < pow2 128).
  { apply Qlt_trans with (pow2 24 * pow2 k).
    - apply Qmult_lt_compat_r; [apply pow2_pos|].
      rewrite pow2_Z by lia. rewrite <- Zlt_Qlt. lia.
    - rewrite <- pow2_add. apply pow2_lt. lia. }
  lra.
Qed.

(** Integers below 2^24 are float32 numbers. *)
Lemma of_int_exact n :
  (0 ≤ n < 2 ^ 24)%Z → ∃ r, of_int n = Finite r ∧ r == inject_Z n.
Proof.
  intros Hn. unfold of_int.
  assert (H0 : 0 <= inject_Z n) by (change 0 with (inject_Z 0); rewrite <- Zle_Qle; lia).
  assert (Hlt : Qabs (inject_Z n) < pow2 (0 + 24)).
  { rewrite Qabs_pos by done. rewrite pow2_Z by lia. rewrite <- Zlt_Qlt. lia. }
  destruct (f32_nearest_between 0 n n (inject_Z n)) as [Hlo Hhi];
    [lia|rewrite pow2_0; lra|rewrite pow2_0; lra|done|].
  rewrite pow2_0 in Hlo, Hhi.
  exists (Qred (f32_nearest (inject_Z n))).
  split; [|rewrite Qred_correct; lra].
  unfold f32_round. cbv zeta.
  destruct (Qle_bool (pow2 128) (Qabs (f32_nearest (inject_Z n)))) eqn:Hover;
    [|reflexivity].
  exfalso. apply Qle_bool_iff in Hover. rewrite Qabs_pos in Hover by lra.
  assert (Hbig : inject_Z n < pow2 128).
  { apply Qlt_trans with (pow2 24).
    - rewrite pow2_Z by lia. rewrite <- Zlt_Qlt. lia.
    - apply pow2_lt. lia. }
  lra.
Qed.

Lemma of_int_10000 : of_int (10 ^ Z.of_nat 4) = Finite 10000.
Proof. vm_compute. reflexivity. Qed.

Lemma of_int_2 : of_int 2 = Finite 2.
Proof. vm_compute. reflexivity. Qed.

(** [round(v, 4)] on a float32 between 0 and 1. *)
Lemma float32_round_unit v :
  0 <= v → v <= 1 →
  ∃ r k, float32_round (Finite v) 4 = Finite r ∧
         (0 ≤ k ≤ 10000)%Z ∧ Finite r = f32_round (inject_Z k / 10000) ∧
         0 <= r ∧ r <= 1 ∧
         Qabs (r - v) <= (1 # 20000) + 2 * u32 + 2 * eta32 ∧
         Qabs (inject_Z k - 10000 * v) <= (1 # 2) + 10000 * u32 + eta32.
Proof.
  intros H0 H1. unfold float32_round. rewrite of_int_10000.
  cbn [f32_mul].
  destruct (f32_round_range 0 10000 (v * 10000)) as (p & -> & Hp0 & Hp1 & Hperr);
    [lia|lia|lra|rewrite pow2_0; change (inject_Z 10000) with 10000; lra|].
  rewrite pow2_0 in Hp1. change (inject_Z 10000) with 10000 in Hp1.
  cbn [f32_rint f32_div]. change (Qeq_bool 10000 0) with false. cbv iota.
  destruct (round_half_even_bounds 0 10000 p) as [Hk0 Hk1]; [done|done|].
  pose proof (round_half_even_error p) as Hkerr.
  set (k := round_half_even p) in *.
  assert (HK0 : 0 <= inject_Z k) by (change 0 with (inject_Z 0); by rewrite <- Zle_Qle).
  assert (HK1 : inject_Z k <= 10000)
    by (change 10000 with (inject_Z 10000); by rewrite <- Zle_Qle).
  assert (Hdiv : inject_Z k / 10000 == inject_Z k * (1 # 10000)) by reflexivity.
  destruct (f32_round_range 0 1 (inject_Z k / 10000)) as (r & Hr & Hr0 & Hr1 & Hrerr);
    [lia|lia|rewrite Hdiv; lra|rewrite pow2_0, Hdiv; change (inject_Z 1) with 1; lra|].
  rewrite pow2_0 in Hr1. change (inject_Z 1) with 1 in Hr1.
  exists r, k. rewrite Hr. split; [done|]. split; [done|]. split; [done|].
  split; [done|]. split; [lra|].
  pose proof u32_pos as Hu. pose proof eta32_pos as Heta.
  rewrite Hdiv in Hrerr.
  assert (Hup : u32 * (v * 10000) <= u32 * 10000) by (apply scale_le; lra).
  assert (Huk : u32 * (inject_Z k * (1 # 10000)) <= u32 * 1) by (apply scale_le; lra).
  apply Qabs_Qle_condition in Hperr, Hkerr, Hrerr.
  split; apply Qabs_Qle_condition; split; lra.
Qed.

(** The extent of a box inside the frame, as [detect] computes it. *)
Lemma extent_field (x1 x2 : Q) (w : Z) :
  (0 < w < 2 ^ 24)%Z → 0 <= x1 → x1 <= x2 → x2 <= inject_Z w →
  ∃ r k, float32_round (f32_div (f32_sub (Finite x2) (Finite x1)) (of_int w)) 4
         = Finite r ∧
         (0 ≤ k ≤ 10000)%Z ∧ Finite r = f32_round (inject_Z k / 10000) ∧
         0 <= r ∧ r <= 1 ∧
         Qabs (r - (x2 - x1) / inject_Z w) <= 51 # 1000000 ∧
         Qabs (inject_Z k - 10000 * ((x2 - x1) / inject_Z w)) <= 51 # 100.
Proof.
  intros Hw H0 H12 H2.
  assert (HW : 1 <= inject_Z w) by (change 1 with (inject_Z 1); rewrite <- Zle_Qle; lia).
  cbn [f32_sub f32_opp f32_add].
  destruct (f32_round_range 0 w (x2 + - x1)) as (d & -> & Hd0 & Hd1 & Hderr);
    [lia|lia|lra|rewrite pow2_0; lra|].
  rewrite pow2_0 in Hd1.
  destruct (of_int_exact w) as (W & -> & HWeq); [lia|].
  cbn [f32_div].
  assert (HWz : Qeq_bool W 0 = false).
  { destruct (Qeq_bool W 0) eqn:Hz; [|done]. apply Qeq_bool_iff in Hz. lra. }
  rewrite HWz.
  assert (HWpos : 0 < W) by lra.
  assert (Hq0 : 0 <= d / W) by (apply Qle_shift_div_l; lra).
  assert (Hq1 : d / W <= 1) by (apply Qle_shift_div_r; lra).
  destruct (f32_round_range 0 1 (d / W)) as (b & -> & Hb0 & Hb1 & Hberr);
    [lia|lia|done|rewrite pow2_0; change (inject_Z 1) with 1; lra|].
  rewrite pow2_0 in Hb1. change (inject_Z 1) with 1 in Hb1.
  destruct (float32_round_unit b)
    as (r & k & -> & Hk & Hrk & Hr0 & Hr1 & Hrerr & Hkerr); [done|lra|].
  exists r, k. do 5 (split; [done|]).
  assert (Hex : (x2 - x1) / inject_Z w == (x2 - x1) / W) by (by rewrite HWeq).
  rewrite Hex.
  pose proof u32_pos as Hu. pose proof eta32_pos as Heta.
  pose proof u32_small as Hus. pose proof eta32_small as Hes.
  assert (HDX : Qabs (d / W - (x2 - x1) / W) <= u32 + eta32).
  { apply (scaled_error _ W); [done|].
    assert (Heq : (d / W - (x2 - x1) / W) * W == d - (x2 + - x1)) by (field; lra).
    rewrite Heq. eapply Qle_trans; [exact Hderr|].
    assert (H1 : u32 * (x2 + - x1) <= u32 * W) by (apply scale_le; lra).
    assert (H3 : eta32 * 1 <= eta32 * W) by (apply scale_le; lra).
    lra. }
  assert (HuD : u32 * (d / W) <= u32 * 1) by (apply scale_le; lra).
  apply Qabs_Qle_condition in HDX, Hberr, Hrerr, Hkerr.
  split; apply Qabs_Qle_condition; split; lra.
Qed.

(** The centre of a box inside the frame, as [detect] computes it. *)
Lemma center_field (x1 x2 : Q) (w : Z) :
  (0 < w < 2 ^ 24)%Z → 0 <= x1 → x1 <= x2 → x2 <= inject_Z w →
  ∃ r k, float32_round
           (f32_div (f32_div (f32_add (Finite x1) (Finite x2)) (of_int 2))
                    (of_int w)) 4
         = Finite r ∧
         (0 ≤ k ≤ 10000)%Z ∧ Finite r = f32_round (inject_Z k / 10000) ∧
         0 <= r ∧ r <= 1 ∧
         Qabs (r - ((x1 + x2) / 2) / inject_Z w) <= 51 # 1000000 ∧
         Qabs (inject_Z k - 10000 * (((x1 + x2) / 2) / inject_Z w)) <= 51 # 100.
Proof.
  intros Hw H0 H12 H2.
  assert (HW : 1 <= inject_Z w) by (change 1 with (inject_Z 1); rewrite <- Zle_Qle; lia).
  cbn [f32_add].
  destruct (f32_round_range 1 w (x1 + x2)) as (s & -> & Hs0 & Hs1 & Hserr);
    [lia|lia|lra|rewrite pow2_1; lra|].
  rewrite pow2_1 in Hs1.
  rewrite of_int_2. cbn [f32_div]. change (Qeq_bool 2 0) with false. cbv iota.
  assert (Hhalf : s / 2 == s * (1 # 2)) by reflexivity.
  destruct (f32_round_range 0 w (s / 2)) as (h & -> & Hh0 & Hh1 & Hherr);
    [lia|lia|rewrite Hhalf; lra|rewrite pow2_0, Hhalf; lra|].
  rewrite pow2_0 in Hh1. rewrite Hhalf in Hherr.
  destruct (of_int_exact w) as (W & -> & HWeq); [lia|].
  cbn [f32_div].
  assert (HWz : Qeq_bool W 0 = false).
  { destruct (Qeq_bool W 0) eqn:Hz; [|done]. apply Qeq_bool_iff in Hz. lra. }
  rewrite HWz.
  assert (HWpos : 0 < W) by lra.
  assert (Hq0 : 0 <= h / W) by (apply Qle_shift_div_l; lra).
  assert (Hq1 : h / W <= 1) by (apply Qle_shift_div_r; lra).
  destruct (f32_round_range 0 1 (h / W)) as (c & -> & Hc0 & Hc1 & Hcerr);
    [lia|lia|done|rewrite pow2_0; change (inject_Z 1) with 1; lra|].
  rewrite pow2_0 in Hc1. change (inject_Z 1) with 1 in Hc1.
  destruct (float32_round_unit c)
    as (r & k & -> & Hk & Hrk & Hr0 & Hr1 & Hrerr & Hkerr); [done|lra|].
  exists r, k. do 5 (split; [done|]).
  assert (Hex : ((x1 + x2) / 2) / inject_Z w == ((x1 + x2) / 2) / W)
    by (by rewrite HWeq).
  rewrite Hex.
  pose proof u32_pos as Hu. pose proof eta32_pos as Heta.
  pose proof u32_small as Hus. pose proof eta32_small as Hes.
  assert (HHX : Qabs (h / W - ((x1 + x2) / 2) / W) <= 2 * u32 + 2 * eta32).
  { apply (scaled_error _ W); [done|].
    assert (Heq : (h / W - ((x1 + x2) / 2) / W) * W == h - (x1 + x2) * (1 # 2))
      by (field; lra).
    rewrite Heq.
    assert (H1 : u32 * (x1 + x2) <= u32 * (2 * W)) by (apply scale_le; lra).
    assert (H3 : u32 * (s * (1 # 2)) <= u32 * W) by (apply scale_le; lra).
    assert (H4 : eta32 * 1 <= eta32 * W) by (apply scale_le; lra).
    apply Qabs_Qle_condition in Hserr, Hherr. apply Qabs_Qle_condition.
    split; lra. }
  assert (HuH : u32 * (h / W) <= u32 * 1) by (apply scale_le; lra).
  apply Qabs_Qle_condition in HHX, Hcerr, Hrerr, Hkerr.
  split; apply Qabs_Qle_condition; split; lra.
Qed.


(** *** The normalisation of a box inside the frame *)

Lemma inject_Z_sub (a b : Z) : inject_Z (a - b) == inject_Z a - inject_Z b.
Proof. unfold Z.sub. by rewrite inject_Z_plus, inject_Z_opp. Qed.

(** A multiple of a ten-thousandth that is within 0.51 ten-thousandths of
    [e] is the four-place rounding of [e] or the decimal next to it. *)
Lemma next_to_rounded (k : Z) (e : Q) :
  Qabs (inject_Z k - 10000 * e) <= 51 # 100 →
  Qabs (inject_Z k / 10000 - round e 4) <= 1 # 10000.
Proof.
  intros Hk.
  change (round e 4) with (round_half_even (e * inject_Z 10000) # 10000).
  pose proof (round_half_even_error (e * inject_Z 10000)) as HK.
  set (K := round_half_even (e * inject_Z 10000)) in *.
  change (inject_Z 10000) with 10000 in HK.
  apply Qabs_Qle_condition in Hk, HK.
  assert (Hlo : (-1 ≤ k - K)%Z).
  { assert (H : inject_Z (-2) < inject_Z (k - K)).
    { rewrite inject_Z_sub. change (inject_Z (-2)) with (-2). lra. }
    rewrite <- Zlt_Qlt in H. lia. }
  assert (Hhi : (k - K ≤ 1)%Z).
  { assert (H : inject_Z (k - K) < inject_Z 2).
    { rewrite inject_Z_sub. change (inject_Z 2) with 2. lra. }
    rewrite <- Zlt_Qlt in H. lia. }
  rewrite Zle_Qle, inject_Z_sub in Hlo, Hhi.
  change (inject_Z (-1)) with (-1) in Hlo. change (inject_Z 1) with 1 in Hhi.
  rewrite (Qmake_Qdiv K 10000).
  change (inject_Z (Zpos 10000)) with 10000.
  assert (Hk' : inject_Z k / 10000 == inject_Z k * (1 # 10000)) by reflexivity.
  assert (HK' : inject_Z K / 10000 == inject_Z K * (1 # 10000)) by reflexivity.
  rewrite Hk', HK'. apply Qabs_Qle_condition. split; lra.
Qed.

Lemma normalized_bbox_inside x1 y1 x2 y2 w h :
  float32_side w → float32_side h → inside w h (x1, y1, x2, y2) →
  let b := normalized_bbox (Finite x1, Finite y1, Finite x2, Finite y2) w h in
  bbox_in_unit_interval b ∧ bbox_nearest_four_places b ∧
  bbox_within (51 # 1000000) b (exact_bbox (x1, y1, x2, y2) w h) ∧
  bbox_rounded_like b (normalized_bbox_spec (x1, y1, x2, y2) w h).
Proof.
  intros Hw Hh (Hx1 & Hx & Hx2 & Hy1 & Hy & Hy2). cbv zeta.
  destruct (center_field x1 x2 w Hw Hx1 Hx Hx2)
    as (cx & kx & Hcx & Hkx & Hnx & Hcx0 & Hcx1 & Hcxe & Hkxe).
  destruct (center_field y1 y2 h Hh Hy1 Hy Hy2)
    as (cy & ky & Hcy & Hky & Hny & Hcy0 & Hcy1 & Hcye & Hkye).
  destruct (extent_field x1 x2 w Hw Hx1 Hx Hx2)
    as (bw & kw & Hbw & Hkw & Hnw & Hbw0 & Hbw1 & Hbwe & Hkwe).
  destruct (extent_field y1 y2 h Hh Hy1 Hy Hy2)
    as (bh & kh & Hbh & Hkh & Hnh & Hbh0 & Hbh1 & Hbhe & Hkhe).
  apply next_to_rounded in Hkxe, Hkye, Hkwe, Hkhe.
  unfold bbox_in_unit_interval, bbox_nearest_four_places, bbox_fields,
    bbox_within, bbox_rounded_like, rounded_like, normalized_bbox, exact_bbox,
    normalized_bbox_spec, finite_with, nearest_four_places, unit_interval.
  cbn [x y width height rect_x rect_y rect_width rect_height].
  rewrite Hcx, Hcy, Hbw, Hbh.
  split; [by eauto 20|]. split; [by eauto 20|].
  split; [by eauto 20|]. by eauto 20.
Qed.

End Rounding.

(** ** The shape of a [detect] call *)

Section DetectRuns.
Context {E : Externals}.

(** Once the tracker has answered, [detect] stands or falls with the
    loop. *)
Lemma detect_tracked req st m fr results t0 t1 st' :
  detect_run req st m fr results t0 t1 st' →
  detect req st
  = (match parsed_rows (names m) results (snd (shape fr)) (fst (shape fr)) with
     | Return dets => Return (detect_response fr dets t0 t1)
     | Raise e => Raise e
     end, st').
Proof.
  intros [Hm Hfr (w0 & w1 & Ht0 & Htr & Ht1) Hg].
  unfold detect, bind, read, try_except, lift, now, call, mreturn.
  rewrite Hm, Hfr. destruct (shape fr) as [h w] eqn:Hshape.
  cbn [world globals of_lib]. rewrite Ht0. cbn [world globals of_lib]. rewrite Htr.
  cbn [world globals of_lib]. rewrite Ht1. cbn [world globals of_lib].
  rewrite parse_results_closed. cbn [fst snd].
  destruct st' as [g' w']; cbn in Hg, Ht1 |- *. subst.
  destruct (parsed_rows _ _ _ _) as [dets|e]; cbn [obind]; [|reflexivity].
  unfold detect_response. by rewrite Hshape.
Qed.

Lemma detect_success req st m fr results t0 t1 st' dets :
  detect_run req st m fr results t0 t1 st' →
  parsed_rows (names m) results (snd (shape fr)) (fst (shape fr)) = Return dets →
  detect req st = (Return (detect_response fr dets t0 t1), st').
Proof. intros Hrun Hp. by rewrite (detect_tracked _ _ _ _ _ _ _ _ Hrun), Hp. Qed.

Lemma detect_Return_inv req st resp st' :
  detect req st = (Return resp, st') →
  ∃ m fr results t0 t1 dets,
    detect_run req st m fr results t0 t1 st' ∧
    parsed_rows (names m) results (snd (shape fr)) (fst (shape fr))
    = Return dets ∧
    resp = detect_response fr dets t0 t1.
Proof.
  intros Hd.
  assert (Hrun : ∃ m fr results t0 t1, detect_run req st m fr results t0 t1 st').
  { revert Hd.
    unfold detect, bind, read, try_except, lift, raise, now, call, mreturn.
    destruct (model (globals st)) as [m|] eqn:Hm; [|discriminate].
    destruct (decode_frame _ _) as [fr|e] eqn:Hfr; [|discriminate].
    destruct (shape fr) as [h w] eqn:Hshape.
    cbn [world globals of_lib].
    destruct (perf_counter (world st)) as [t0 w0] eqn:Ht0.
    cbn [world globals of_lib].
    destruct (track _ _ _ _ _ _ _ _) as [[results|e] w1] eqn:Htr;
      [|discriminate].
    cbn [world globals of_lib].
    destruct (perf_counter w1) as [t1 w2] eqn:Ht1. cbn [world globals of_lib].
    destruct (parse_results _ _ _ _) as [[dets counts]|e]; [|discriminate].
    intros [= _ <-]. exists m, fr, results, t0, t1. split; cbn; eauto 10. }
  destruct Hrun as (m & fr & results & t0 & t1 & Hrun).
  rewrite (detect_tracked _ _ _ _ _ _ _ _ Hrun) in Hd.
  destruct (parsed_rows _ _ _ _) as [dets|e] eqn:Hp; [|discriminate].
  injection Hd as <-. by exists m, fr, results, t0, t1, dets.
Qed.

(** An answer of [detect], row by row. *)
Lemma detect_Return_rows req st resp st' :
  detect req st = (Return resp, st') →
  ∃ m fr results t0 t1,
    detect_run req st m fr results t0 t1 st' ∧
    shape fr = (frame_height resp, frame_width resp) ∧
    length (detections resp) = length (raw_rows results) ∧
    ∀ i row, raw_rows results !! i = Some row →
      ∃ d, detections resp !! i = Some d ∧
           detection_of_row (names m) (has_ids results)
             (frame_width resp) (frame_height resp) row = Return d.
Proof.
  intros Hd.
  apply detect_Return_inv in Hd as (m & fr & results & t0 & t1 & dets & Hrun & Hp & ->).
  exists m, fr, results, t0, t1. split; [done|].
  cbn [detect_response detections frame_width frame_height].
  split; [by destruct (shape fr)|].
  split; [by eapply collect_length|].
  intros i row Hrow. by eapply collect_lookup.
Qed.

Lemma detect_tracker_fails req st m fr t0 w0 msg w1 :
  model (globals st) = Some m →
  decode_frame (frame req) "Failed to decode image" = Return fr →
  perf_counter (world st) = (t0, w0) →
  track m fr TRACKER_CONFIG true (conf req) (iou req) (imgsz req) w0
  = (Fails msg, w1) →
  detect req st
  = (Raise (PyError msg), {| globals := globals st; world := w1 |}).
Proof.
  intros Hm Hfr Ht0 Htr.
  unfold detect, bind, read, try_except, lift, now, call, mreturn.
  rewrite Hm, Hfr. destruct (shape fr) as [h w]. cbn [world globals].
  rewrite Ht0. cbn [world globals of_lib]. rewrite Htr. reflexivity.
Qed.

End DetectRuns.

(** ** Refusals: unloaded handles and frames that do not decode *)

Section Refusals.
Context {E : Externals}.

Lemma decode_frame_bad frame_b64 failed :
  bad_frame frame_b64 →
  ∃ msg, decode_frame frame_b64 failed = Raise (PyError msg).
Proof.
  unfold decode_frame.
  intros [e He | buf e Hb He | buf Hb Hn].
  - rewrite He. by eexists.
  - rewrite Hb. cbn. rewrite He. by eexists.
  - rewrite Hb. cbn. rewrite Hn. by eexists.
Qed.

Lemma decode_frame_raises frame_b64 failed e :
  decode_frame frame_b64 failed = Raise e →
  bad_frame frame_b64 ∧ ∃ msg, e = PyError msg.
Proof.
  unfold decode_frame.
  destruct (b64decode frame_b64) as [buf|m] eqn:Hb; cbn.
  - destruct (imdecode buf) as [[fr|]|m] eqn:Hi; cbn; intros [= <-].
    + split; [by eapply bad_image_none|by eexists].
    + split; [by eapply bad_image_raises|by eexists].
  - intros [= <-]. split; [by eapply bad_base64|by eexists].
Qed.

Lemma detect_unloaded req st :
  model (globals st) = None →
  detect req st = (Raise (HTTPException 503 "Model not loaded"), st).
Proof.
  intros Hm. unfold detect, bind, read, raise. by rewrite Hm.
Qed.

Lemma detect_undecodable req st m msg :
  model (globals st) = Some m →
  decode_frame (frame req) "Failed to decode image" = Raise (PyError msg) →
  detect req st
  = (Raise (HTTPException 400 ("Invalid frame data: " +:+ msg)), st).
Proof.
  intros Hm Hd. unfold detect, bind, read, try_except, lift, raise.
  by rewrite Hm, Hd.
Qed.

Lemma explain_unloaded req st :
  cam_extractor (globals st) = None →
  explain req st
  = (Raise (HTTPException 503 "Explainability model not loaded"), st).
Proof.
  intros Hc. unfold explain, bind, read, raise. by rewrite Hc.
Qed.

Lemma explain_undecodable req st cam msg :
  cam_extractor (globals st) = Some cam →
  decode_frame (explain_frame req) "Failed to decode" = Raise (PyError msg) →
  explain req st
  = (Raise (HTTPException 400 ("Invalid frame: " +:+ msg)), after_clock st).
Proof.
  intros Hc Hd.
  unfold explain, bind, read, try_except, lift, raise, now, call, after_clock.
  rewrite Hc. cbn [world globals].
  destruct (perf_counter (world st)) as [t0 w0]. cbn [world globals of_lib snd].
  by rewrite Hd.
Qed.

Lemma health_check_reports st :
  health_check st
  = (Return {| status := "ok";
               model_loaded := bool_decide (is_Some (model (globals st)));
               model_path := "best.pt";
               health_tracker := "botsort" |}, st).
Proof. reflexivity. Qed.

End Refusals.

(** ** The shape of an [explain] call *)

Section ExplainRuns.
Context {E : Externals}.

Lemma shape_eqb_refl s : shape_eqb s s = true.
Proof. unfold shape_eqb. by rewrite !Z.eqb_refl. Qed.

Lemma explain_success req st cam fr saliency t0 t1 st' :
  explain_run req st cam fr saliency t0 t1 st' →
  explain req st = (Return (explain_response fr saliency t0 t1), st').
Proof.
  intros [Hc Hfr (w0 & w1 & Ht0 & Hcall & Ht1) Hg].
  unfold explain, bind, read, try_except, lift, now, call, mreturn.
  rewrite Hc. cbn [world globals]. rewrite Ht0. cbn [world globals of_lib].
  rewrite Hfr. unfold cam_first. fold (input_tensor_of fr).
  cbn [input_tensor_of to_input_tensor tensor_shape resize shape fst snd].
  fold (input_tensor_of fr). cbn [world globals]. rewrite Hcall.
  cbn [world globals of_lib].
  destruct (shape fr) as [h w] eqn:Hshape.
  unfold show_cam_on_image.
  cbn [float32_div255 cvtColor resize shape fst snd]. rewrite Hshape.
  rewrite shape_eqb_refl. cbn [world globals]. rewrite Ht1.
  cbn [world globals of_lib].
  unfold explain_response, overlay_of. rewrite Hshape. cbn [fst snd].
  destruct st' as [g' w']; cbn in *. by subst.
Qed.

End ExplainRuns.

(** ** Who writes the globals *)

Section Lifecycle.
Context {E : Externals}.

Lemma readonly_mreturn {A} (a : A) : readonly (mreturn a).
Proof. by intros st. Qed.

Lemma readonly_raise {A} e : readonly (raise (A:=A) e).
Proof. by intros st. Qed.

Lemma readonly_lift {A} (o : Outcome A) : readonly (lift o).
Proof. by intros st. Qed.

Lemma readonly_read {A} (g : Globals → A) : readonly (read g).
Proof. by intros st. Qed.

Lemma readonly_call {A} (f : World → Lib A * World) : readonly (call f).
Proof. intros st. unfold call. by destruct (f (world st)). Qed.

Lemma readonly_bind {A B} (m : M A) (k : A → M B) :
  readonly m → (∀ a, readonly (k a)) → readonly (bind m k).
Proof.
  intros Hm Hk st. unfold bind. specialize (Hm st).
  destruct (m st) as [[a|e] s']; cbn in *; [|done].
  by rewrite Hk.
Qed.

Lemma readonly_try_except {A} (m : M A) (handler : Exception → M A) :
  readonly m → (∀ e, readonly (handler e)) → readonly (try_except m handler).
Proof.
  intros Hm Hh st. unfold try_except. specialize (Hm st).
  destruct (m st) as [[a|e] s']; cbn in *; [done|].
  by rewrite Hh.
Qed.

Lemma readonly_now : readonly now.
Proof. apply readonly_call. Qed.

Create HintDb readonly.
#[local] Hint Resolve readonly_mreturn readonly_raise readonly_lift
  readonly_read readonly_call readonly_now readonly_try_except : readonly.

Ltac readonly_steps :=
  repeat first
    [ apply readonly_bind; [solve [auto with readonly]|intros ?]
    | match goal with
      | |- readonly (match ?o with Some _ => _ | None => _ end) => destruct o
      | |- readonly (let '(_, _) := ?p in _) => destruct p
      end
    | solve [auto with readonly] ].

Lemma readonly_health_check : readonly health_check.
Proof. unfold health_check. readonly_steps. Qed.

Lemma readonly_model_info : readonly model_info.
Proof. unfold model_info. readonly_steps. Qed.

Lemma readonly_detect req : readonly (detect req).
Proof. unfold detect. readonly_steps. Qed.

Lemma readonly_explain req : readonly (explain req).
Proof. unfold explain. readonly_steps. Qed.

Lemma readonly_handle r : readonly (handle r).
Proof.
  destruct r; cbn [handle]; apply readonly_bind;
    auto using readonly_health_check, readonly_model_info, readonly_detect,
      readonly_explain, readonly_mreturn.
Qed.

Lemma serve_globals rs : ∀ st, globals (snd (serve rs st)) = globals st.
Proof.
  induction rs as [|r rs IH]; intros st; cbn [serve]; [done|].
  pose proof (readonly_handle r st) as Hr.
  destruct (handle r st) as [o s']. specialize (IH s').
  destruct (serve rs s') as [os s'']. cbn in *. congruence.
Qed.

(** When the start-up code runs to its end, all three handles are set. *)
Lemma lifespan_startup_loaded st u st' :
  lifespan_startup st = (Return u, st') →
  ∃ m em cam,
    globals st' = {| model := Some m; explain_model := Some em;
                     cam_extractor := Some cam |}.
Proof.
  unfold lifespan_startup, bind, call, assign, raise.
  cbn [world globals of_lib].
  destruct (path_exists (world st)); cbn [negb world globals];
    [|discriminate].
  destruct (YOLO (world st)) as [[m|msg] w1]; cbn [of_lib world globals];
    [|discriminate].
  destruct (predict m _ w1) as [[[]|msg] w2]; cbn [of_lib world globals];
    [|discriminate].
  destruct (mobilenet_v3_small w2) as [[em|msg] w3];
    cbn [of_lib world globals model explain_model cam_extractor];
    [|discriminate].
  destruct (GradCAM em w3) as [[cam|msg] w4];
    cbn [of_lib world globals model explain_model cam_extractor];
    [|discriminate].
  intros [= <- <-]. by exists m, em, cam.
Qed.

(** After a whole life of the process, only [model] has been cleared. *)
Lemma lifespan_final_globals rs st os st' :
  lifespan rs st = (Return os, st') →
  ∃ em cam,
    globals st' = {| model := None; explain_model := Some em;
                     cam_extractor := Some cam |}.
Proof.
  unfold lifespan.
  destruct (lifespan_startup st) as [[u|e] s1] eqn:Hstart; [|discriminate].
  apply lifespan_startup_loaded in Hstart as (m & em & cam & Hg).
  pose proof (serve_globals rs s1) as Hserve.
  destruct (serve rs s1) as [os' s2]. cbn in Hserve.
  intros [= <- <-]. exists em, cam.
  unfold lifespan_shutdown, assign. cbn. by rewrite Hserve, Hg.
Qed.

End Lifecycle.

(** ** Every way a request can end *)

Section Outcomes.
Context {E : Externals}.

Lemma explain_Return_inv req st resp st' :
  explain req st = (Return resp, st') →
  ∃ cam fr saliency t0 t1,
    explain_run req st cam fr saliency t0 t1 st' ∧
    resp = explain_response fr saliency t0 t1.
Proof.
  intros Hx.
  destruct (cam_extractor (globals st)) as [cam|] eqn:Hc;
    [|by rewrite explain_unloaded in Hx].
  destruct (decode_frame (explain_frame req) "Failed to decode")
    as [fr|e] eqn:Hfr.
  2:{ apply decode_frame_raises in Hfr as Hbad. destruct Hbad as [_ [msg ->]].
      by rewrite (explain_undecodable _ _ _ _ Hc Hfr) in Hx. }
  destruct (perf_counter (world st)) as [t0 w0] eqn:Ht0.
  destruct (cam_call cam (input_tensor_of fr) None w0)
    as [[saliency|msg] w1] eqn:Hcall.
  - destruct (perf_counter w1) as [t1 w2] eqn:Ht1.
    assert (Hrun : explain_run req st cam fr saliency t0 t1
                     {| globals := globals st; world := w2 |}).
    { split; cbn; eauto 10. }
    rewrite (explain_success _ _ _ _ _ _ _ _ Hrun) in Hx.
    injection Hx as <- <-. by exists cam, fr, saliency, t0, t1.
  - exfalso. revert Hx.
    unfold explain, bind, read, try_except, lift, now, call, mreturn.
    rewrite Hc. cbn [world globals]. rewrite Ht0. cbn [world globals of_lib].
    rewrite Hfr. unfold cam_first. fold (input_tensor_of fr).
    cbn [input_tensor_of to_input_tensor tensor_shape resize shape fst snd].
    fold (input_tensor_of fr). cbn [world globals]. rewrite Hcall.
    cbn [world globals of_lib]. discriminate.
Qed.

Lemma detect_Raise_loaded req st m e st' :
  model (globals st) = Some m →
  detect req st = (Raise e, st') →
  (∃ msg, bad_frame (frame req) ∧
          e = HTTPException 400 ("Invalid frame data: " +:+ msg)) ∨
  (∃ msg, e = PyError msg).
Proof.
  intros Hm Hd.
  destruct (decode_frame (frame req) "Failed to decode image") as [fr|e'] eqn:Hfr.
  2:{ apply decode_frame_raises in Hfr as Hbad. destruct Hbad as [Hbad [msg ->]].
      rewrite (detect_undecodable _ _ _ _ Hm Hfr) in Hd.
      injection Hd as <- _. left. by exists msg. }
  right.
  destruct (perf_counter (world st)) as [t0 w0] eqn:Ht0.
  destruct (track m fr TRACKER_CONFIG true (conf req) (iou req) (imgsz req) w0)
    as [[results|msg] w1] eqn:Htr.
  - destruct (perf_counter w1) as [t1 w2] eqn:Ht1.
    assert (Hrun : detect_run req st m fr results t0 t1
                     {| globals := globals st; world := w2 |}).
    { split; cbn; eauto 10. }
    rewrite (detect_tracked _ _ _ _ _ _ _ _ Hrun) in Hd.
    destruct (parsed_rows _ _ _ _) as [dets|e'] eqn:Hp; [discriminate|].
    injection Hd as <- _.
    apply parsed_rows_Raise in Hp as [[->| ->] _]; by eexists.
  - rewrite (detect_tracker_fails _ _ _ _ _ _ _ _ Hm Hfr Ht0 Htr) in Hd.
    injection Hd as <- _. by eexists.
Qed.

Lemma detect_Raise_inv req st e st' :
  detect req st = (Raise e, st') → detect_error req e.
Proof.
  intros Hd.
  destruct (model (globals st)) as [m|] eqn:Hm.
  - destruct (detect_Raise_loaded _ _ _ _ _ Hm Hd)
      as [(msg & Hbad & ->)|(msg & ->)]; by constructor.
  - rewrite detect_unloaded in Hd by done. injection Hd as <- _. constructor.
Qed.

Lemma explain_Raise_loaded req st cam e st' :
  cam_extractor (globals st) = Some cam →
  explain req st = (Raise e, st') →
  (∃ msg, bad_frame (explain_frame req) ∧
          e = HTTPException 400 ("Invalid frame: " +:+ msg)) ∨
  (∃ msg, e = PyError msg).
Proof.
  intros Hc Hx.
  destruct (decode_frame (explain_frame req) "Failed to decode")
    as [fr|e'] eqn:Hfr.
  2:{ apply decode_frame_raises in Hfr as Hbad. destruct Hbad as [Hbad [msg ->]].
      rewrite (explain_undecodable _ _ _ _ Hc Hfr) in Hx.
      injection Hx as <- _. left. by exists msg. }
  destruct (perf_counter (world st)) as [t0 w0] eqn:Ht0.
  destruct (cam_call cam (input_tensor_of fr) None w0)
    as [[saliency|msg] w1] eqn:Hcall.
  - destruct (perf_counter w1) as [t1 w2] eqn:Ht1.
    assert (Hrun : explain_run req st cam fr saliency t0 t1
                     {| globals := globals st; world := w2 |}).
    { split; cbn; eauto 10. }
    by rewrite (explain_success _ _ _ _ _ _ _ _ Hrun) in Hx.
  - revert Hx.
    unfold explain, bind, read, try_except, lift, now, call, mreturn.
    rewrite Hc. cbn [world globals]. rewrite Ht0. cbn [world globals of_lib].
    rewrite Hfr. unfold cam_first. fold (input_tensor_of fr).
    cbn [input_tensor_of to_input_tensor tensor_shape resize shape fst snd].
    fold (input_tensor_of fr). cbn [world globals]. rewrite Hcall.
    cbn [world globals of_lib]. intros [= <- _]. right. by exists msg.
Qed.

Lemma explain_Raise_inv req st e st' :
  explain req st = (Raise e, st') → explain_error req e.
Proof.
  intros Hx.
  destruct (cam_extractor (globals st)) as [cam|] eqn:Hc.
  - destruct (explain_Raise_loaded _ _ _ _ _ Hc Hx)
      as [(msg & Hbad & ->)|(msg & ->)]; by constructor.
  - rewrite explain_unloaded in Hx by done. injection Hx as <- _. constructor.
Qed.

End Outcomes.

(** ** Properties of [detect] *)

Section DetectProperties.
Context {E : Externals}.

(** C1: in every answer of a successful [detect] call the values of
    [count_by_class] add up to [vehicle_count], and [vehicle_count] is the
    length of [detections]. *)
Theorem detect_counts_sum req st resp st' :
  detect req st = (Return resp, st') →
  sum_values (count_by_class resp) = vehicle_count resp ∧
  vehicle_count resp = Z.of_nat (length (detections resp)).
Proof.
  intros Hd.
  apply detect_Return_inv in Hd as (m & fr & results & t0 & t1 & dets & _ & _ & ->).
  cbn [detect_response count_by_class vehicle_count detections].
  split; [|reflexivity].
  rewrite sum_values_foldl, sum_values_empty, length_fmap. lia.
Qed.




End DetectProperties.

(** ** Properties of the error paths and of the process *)

Section ErrorProperties.
Context {E : Externals}.

(** C4, as amended: for a frame that is not base64 or does not decode to
    an image (an empty buffer included), [detect] answers 400 with the
    text "Invalid frame data: ..." when the detector is loaded, and
    [explain] answers 400 with "Invalid frame: ..." when the CAM extractor
    is loaded; with the handle unset the 503 check comes first.  Either
    way the handler ends in an [HTTPException], never in an answer. *)
Theorem bad_frame_client_error dreq ereq st :
  bad_frame (frame dreq) → bad_frame (explain_frame ereq) →
  (is_Some (model (globals st)) →
   ∃ msg, detect dreq st
          = (Raise (HTTPException 400 ("Invalid frame data: " +:+ msg)), st)) ∧
  (model (globals st) = None →
   detect dreq st = (Raise (HTTPException 503 "Model not loaded"), st)) ∧
  (is_Some (cam_extractor (globals st)) →
   ∃ msg, explain ereq st
          = (Raise (HTTPException 400 ("Invalid frame: " +:+ msg)),
             after_clock st)) ∧
  (cam_extractor (globals st) = None →
   explain ereq st
   = (Raise (HTTPException 503 "Explainability model not loaded"), st)).
Proof.
  intros Hd Hx.
  destruct (decode_frame_bad _ "Failed to decode image" Hd) as [md Hmd].
  destruct (decode_frame_bad _ "Failed to decode" Hx) as [mx Hmx].
  repeat split.
  - intros [m Hm]. exists md. by eapply detect_undecodable.
  - apply detect_unloaded.
  - intros [cam Hc]. exists mx. by eapply explain_undecodable.
  - apply explain_unloaded.
Qed.

(** C5: while the global handles are [None], [detect] and [explain] both
    answer 503, whatever the request, and [health_check] succeeds with
    [model_loaded] false. *)
Theorem unloaded_service_unavailable dreq ereq st :
  model (globals st) = None → cam_extractor (globals st) = None →
  detect dreq st = (Raise (HTTPException 503 "Model not loaded"), st) ∧
  explain ereq st
  = (Raise (HTTPException 503 "Explainability model not loaded"), st) ∧
  ∃ h, health_check st = (Return h, st) ∧ model_loaded h = false.
Proof.
  intros Hm Hc. split; [by apply detect_unloaded|].
  split; [by apply explain_unloaded|].
  eexists. split; [apply health_check_reports|].
  cbn [model_loaded]. by rewrite Hm.
Qed.

(** C6, what the code does: after a whole life of the process (start-up,
    any requests, shutdown) [model] is [None] while [explain_model] and
    [cam_extractor] still hold what start-up loaded. *)
Theorem shutdown_clears_only_model rs st os st' :
  lifespan rs st = (Return os, st') →
  model (globals st') = None ∧
  is_Some (explain_model (globals st')) ∧
  is_Some (cam_extractor (globals st')).
Proof.
  intros Hl. apply lifespan_final_globals in Hl as (em & cam & ->).
  cbn. eauto.
Qed.

(** C9: a request ends either in an answer or in an error.  An answer of
    [detect] is full and well formed: it is the response built from a
    completed run, with one detection for every box the tracker
    returned, in order, each the result of the loop body on that box.
    An answer of [explain] is the encoded overlay of a completed run.
    An error is one of the listed exceptions and carries nothing else.
    When the tracker returns no boxes, [detect] answers with an empty
    list, count 0 and an empty [count_by_class]. *)
Theorem answer_or_error :
  (∀ dreq st,
     match fst (detect dreq st) with
     | Return resp =>
         well_formed resp ∧
         ∃ m fr results t0 t1 dets,
           detect_run dreq st m fr results t0 t1 (snd (detect dreq st)) ∧
           Forall2 (λ row d, detection_of_row (names m) (has_ids results)
                               (snd (shape fr)) (fst (shape fr)) row
                             = Return d)
                   (raw_rows results) dets ∧
           resp = detect_response fr dets t0 t1
     | Raise e => detect_error dreq e
     end) ∧
  (∀ ereq st,
     match fst (explain ereq st) with
     | Return resp =>
         ∃ cam fr saliency t0 t1,
           explain_run ereq st cam fr saliency t0 t1 (snd (explain ereq st)) ∧
           resp = explain_response fr saliency t0 t1
     | Raise e => explain_error ereq e
     end) ∧
  (∀ dreq st m fr results t0 t1 st',
     detect_run dreq st m fr results t0 t1 st' →
     raw_rows results = [] →
     ∃ resp, detect dreq st = (Return resp, st') ∧
             detections resp = [] ∧ vehicle_count resp = 0 ∧
             count_by_class resp = ∅).
Proof.
  split; [|split].
  - intros dreq st. destruct (detect dreq st) as [[resp|e] st'] eqn:Hd; cbn.
    + apply detect_Return_inv in Hd
        as (m & fr & results & t0 & t1 & dets & Hrun & Hp & ->).
      split.
      * unfold well_formed.
        cbn [detect_response vehicle_count detections count_by_class tracker].
        split; [reflexivity|]. split; [|reflexivity].
        rewrite sum_values_foldl, sum_values_empty, length_fmap. lia.
      * exists m, fr, results, t0, t1, dets. split; [done|].
        split; [by apply collect_Return|done].
    + by eapply detect_Raise_inv.
  - intros ereq st. destruct (explain ereq st) as [[resp|e] st'] eqn:Hx; cbn.
    + by apply explain_Return_inv.
    + by eapply explain_Raise_inv.
  - intros dreq st m fr results t0 t1 st' Hrun Hrows.
    eexists. split.
    + eapply detect_success; [exact Hrun|].
      unfold parsed_rows. rewrite Hrows. reflexivity.
    + by cbn.
Qed.

(** C10: [explain] answers 503 exactly when [cam_extractor] is [None],
    whatever [model] holds.  In the state a whole life of the process
    leaves behind, [explain] therefore does not answer 503, while
    [detect] does and [health_check] reports [model_loaded] false. *)
Theorem explain_checks_cam_extractor_only :
  (∀ ereq st,
     (∃ msg st', explain ereq st = (Raise (HTTPException 503 msg), st'))
     ↔ cam_extractor (globals st) = None) ∧
  (∀ rs st os st',
     lifespan rs st = (Return os, st') →
     (∀ ereq msg st'', explain ereq st' ≠ (Raise (HTTPException 503 msg), st'')) ∧
     (∀ dreq, detect dreq st'
              = (Raise (HTTPException 503 "Model not loaded"), st')) ∧
     ∃ h, health_check st' = (Return h, st') ∧ model_loaded h = false).
Proof.
  assert (Hiff : ∀ ereq st,
     (∃ msg st', explain ereq st = (Raise (HTTPException 503 msg), st'))
     ↔ cam_extractor (globals st) = None).
  { intros ereq st. split.
    - intros (msg & st' & Hx).
      destruct (cam_extractor (globals st)) as [cam|] eqn:Hc; [|done].
      exfalso.
      destruct (explain_Raise_loaded _ _ _ _ _ Hc Hx)
        as [(m & _ & [=])|(m & [=])].
    - intros Hc. eexists _, _. by apply explain_unloaded. }
  split; [exact Hiff|].
  intros rs st os st' Hl.
  apply lifespan_final_globals in Hl as (em & cam & Hg).
  split; [|split].
  - intros ereq msg st'' Hx.
    assert (Hnone : cam_extractor (globals st') = None)
      by (apply (Hiff ereq); eauto).
    rewrite Hg in Hnone. discriminate.
  - intros dreq. apply detect_unloaded. by rewrite Hg.
  - eexists. split; [apply health_check_reports|].
    cbn [model_loaded]. by rewrite Hg.
Qed.

End ErrorProperties.

(** ** The test bench obeys the codec contracts *)

Module BenchFacts.
Import Bench.

Ltac nlia := zify; Z.to_euclidean_division_equations; lia.

Lemma list_ind3 {A} (P : list A → Prop) :
  P [] → (∀ a, P [a]) → (∀ a b, P [a; b]) →
  (∀ a b c l, P l → P (a :: b :: c :: l)) →
  ∀ l, P l.
Proof.
  intros H0 H1 H2 H3 l.
  enough (P l ∧ (∀ a, P (a :: l)) ∧ (∀ a b, P (a :: b :: l))) by tauto.
  induction l as [|x l (IH0 & IH1 & IH2)]; [by auto|].
  split; [apply IH1|]. split; [intros a; apply IH2|].
  intros a b. by apply H3.
Qed.

(** *** base64 *)

Lemma all_sextets_check :
  forallb sextet_checks (List.map N.of_nat (seq 0 64)) = true.
Proof. vm_compute. reflexivity. Qed.

Lemma sextet_checks_lt n : (n < 64)%N → sextet_checks n = true.
Proof.
  intros Hn. pose proof all_sextets_check as Hall.
  rewrite forallb_forall in Hall. apply Hall.
  rewrite <- (N2Nat.id n). apply in_map, in_seq. lia.
Qed.

Lemma sextet_char n : (n < 64)%N → sextet (char_of_sextet n) = Done n.
Proof.
  intros Hn. apply sextet_checks_lt in Hn. unfold sextet_checks in Hn.
  unfold sextet. destruct (sextet_of_char (char_of_sextet n)) as [k|];
    [|discriminate].
  apply andb_true_iff in Hn as [Hk _]. apply N.eqb_eq in Hk. by subst.
Qed.

Lemma sextet_char_not_pad n :
  (n < 64)%N → Ascii.eqb (char_of_sextet n) pad = false.
Proof.
  intros Hn. apply sextet_checks_lt in Hn. unfold sextet_checks in Hn.
  apply andb_true_iff in Hn as [_ Hp]. by apply negb_true_iff in Hp.
Qed.

Lemma is_base64_char_sextet n : is_base64_char (char_of_sextet n) = true.
Proof.
  unfold is_base64_char. destruct (N.ltb_spec n 64) as [Hn|Hn].
  - apply sextet_checks_lt in Hn. unfold sextet_checks in Hn.
    destruct (sextet_of_char (char_of_sextet n)); [|discriminate].
    apply orb_true_iff. right. apply bool_decide_eq_true. by eexists.
  - unfold char_of_sextet. rewrite nth_overflow; [reflexivity|].
    change (length alphabet) with 64%nat. lia.
Qed.

Lemma filter_encode_bytes bs :
  List.filter is_base64_char (encode_bytes bs) = encode_bytes bs.
Proof.
  induction bs as [|a|a b|a b c bs IH] using list_ind3;
    cbn [encode_bytes List.filter]; rewrite ?is_base64_char_sextet;
    change (is_base64_char pad) with true; cbv iota; congruence.
Qed.

Lemma byte_of_to_N a : byte_of (Byte.to_N a) = Done a.
Proof. unfold byte_of. by rewrite Byte.of_to_N. Qed.

Ltac decode_step :=
  repeat first
    [ rewrite sextet_char by nlia
    | rewrite sextet_char_not_pad by nlia
    | progress change (Ascii.eqb pad pad) with true
    | progress cbn [lbind]
    | progress cbv iota ].

Lemma decode_encode_bytes bs : decode_chars (encode_bytes bs) = Done bs.
Proof.
  induction bs as [|a|a b|a b c bs IH] using list_ind3.
  - reflexivity.
  - pose proof (Byte.to_N_bounded a) as Ha.
    cbn [encode_bytes decode_chars]. decode_step.
    unfold bytes_of_pair.
    replace ((_ * 64 + _) / 16)%N with (Byte.to_N a) by nlia.
    by rewrite byte_of_to_N.
  - pose proof (Byte.to_N_bounded a) as Ha.
    pose proof (Byte.to_N_bounded b) as Hb.
    cbn [encode_bytes decode_chars]. decode_step.
    unfold bytes_of_triple. cbv zeta.
    replace (((_ * 64 + _) * 64 + _) / 1024)%N with (Byte.to_N a) by nlia.
    replace ((((_ * 64 + _) * 64 + _) / 4) mod 256)%N with (Byte.to_N b) by nlia.
    by rewrite !byte_of_to_N.
  - pose proof (Byte.to_N_bounded a) as Ha.
    pose proof (Byte.to_N_bounded b) as Hb.
    pose proof (Byte.to_N_bounded c) as Hc.
    cbn [encode_bytes decode_chars]. decode_step.
    unfold bytes_of_quad. cbv zeta.
    replace ((((_ * 64 + _) * 64 + _) * 64 + _) / 65536)%N
      with (Byte.to_N a) by nlia.
    replace (((((_ * 64 + _) * 64 + _) * 64 + _) / 256) mod 256)%N
      with (Byte.to_N b) by nlia.
    replace (((((_ * 64 + _) * 64 + _) * 64 + _)) mod 256)%N
      with (Byte.to_N c) by nlia.
    rewrite !byte_of_to_N. cbn [lbind]. rewrite IH. reflexivity.
Qed.

Lemma bench_b64_round_trip buf : bench_b64decode (bench_b64encode buf) = Done buf.
Proof.
  unfold bench_b64decode, bench_b64encode.
  rewrite String.list_ascii_of_string_of_list_ascii, filter_encode_bytes.
  apply decode_encode_bytes.
Qed.

(** *** The image container *)

Lemma bytes_pos_pos_bytes p rest :
  bytes_pos (pos_bytes p ++ rest) = Some (p, rest).
Proof.
  induction p as [p IH|p IH|]; cbn [pos_bytes app bytes_pos];
    by rewrite ?IH.
Qed.

Lemma pos_bytes_cons p : ∃ b bs, pos_bytes p = b :: bs.
Proof. destruct p; cbn; eauto. Qed.

Lemma bench_imdecode_imencode ext (img : ndarray (list byte)) :
  0 < fst (shape img) → 0 < snd (shape img) →
  ∃ img', bench_imdecode (snd (bench_imencode ext img)) = Done (Some img') ∧
          shape img' = shape img.
Proof.
  unfold bench_imencode. destruct (shape img) as [[|h|h] [|w|w]]; cbn [fst snd];
    try lia.
  intros _ _. unfold bench_imdecode.
  exists {| shape := (Zpos h, Zpos w); pixels := pixels img |}.
  split; [|reflexivity].
  rewrite !bytes_pos_pos_bytes.
  destruct (pos_bytes_cons h) as (b & bs & Hh).
  destruct (pos_bytes h ++ _) eqn:Heq; [|reflexivity].
  rewrite Hh in Heq. discriminate.
Qed.

Lemma bench_imdecode_positive buf (img : ndarray (list byte)) :
  bench_imdecode buf = Done (Some img) →
  0 < fst (shape img) ∧ 0 < snd (shape img).
Proof.
  unfold bench_imdecode. destruct buf as [|b bs]; [discriminate|].
  destruct (bytes_pos (b :: bs)) as [[h rest]|]; [|discriminate].
  destruct (bytes_pos rest) as [[w cells]|]; [|discriminate].
  intros [= <-]. cbn. lia.
Qed.

End BenchFacts.

(** ** The heat map of [explain] *)

Lemma bench_codec_laws : CodecLaws Bench.libs.
Proof.
  split.
  - apply BenchFacts.bench_b64_round_trip.
  - apply BenchFacts.bench_imdecode_imencode.
  - apply BenchFacts.bench_imdecode_positive.
Qed.

Section Heatmap.
Context {E : Externals} {laws : CodecLaws E}.

Lemma decode_frame_positive frame_b64 failed fr :
  decode_frame frame_b64 failed = Return fr →
  0 < fst (shape fr) ∧ 0 < snd (shape fr).
Proof.
  unfold decode_frame.
  destruct (b64decode frame_b64) as [buf|m]; [|discriminate]. cbn.
  destruct (imdecode buf) as [[img|]|m] eqn:Hi; cbn; try discriminate.
  intros [= <-]. by eapply imdecode_positive.
Qed.

(** C7: when [explain] runs to its end on a frame that decoded to [w] by
    [h] pixels, the saliency map was asked for a 1 x 3 x 224 x 224
    tensor, the overlay that is encoded has the shape of the frame, and
    the returned text decodes (base64, then image) to an image of exactly
    the frame's shape. *)
Theorem explain_heatmap_dimensions req st cam fr saliency t0 t1 st' failed :
  explain_run req st cam fr saliency t0 t1 st' →
  ∃ resp,
    explain req st = (Return resp, st') ∧
    tensor_shape (input_tensor_of fr) = (1, 3, 224, 224) ∧
    heatmap resp
    = b64encode (snd (imencode ".jpg"
                        (cvtColor (overlay_of fr saliency) COLOR_RGB2BGR))) ∧
    shape (overlay_of fr saliency) = shape fr ∧
    ∃ img, decode_frame (heatmap resp) failed = Return img ∧
           shape img = shape fr.
Proof.
  intros Hrun. eexists. split; [eapply explain_success, Hrun|].
  split; [reflexivity|]. split; [reflexivity|]. split; [reflexivity|].
  destruct Hrun as [_ Hfr _ _].
  destruct (decode_frame_positive _ _ _ Hfr) as [Hh Hw].
  destruct (imdecode_imencode (cvtColor (overlay_of fr saliency) COLOR_RGB2BGR))
    as (img & Himg & Hshape); [exact Hh|exact Hw|].
  exists img. split; [|exact Hshape].
  unfold decode_frame, explain_response. cbn [heatmap].
  rewrite b64decode_b64encode. cbn [of_lib obind]. by rewrite Himg.
Qed.

End Heatmap.
(** ** Runs on the test bench *)

Lemma bench_detect_run results rest :
  detect_run (E:=Bench.libs) Bench.request (Bench.ready (results :: rest))
    Bench.class_names Bench.image_100 results 0 (1 # 100) (Bench.served rest).
Proof.
  split.
  - reflexivity.
  - reflexivity.
  - eexists _, _. repeat split; reflexivity.
  - reflexivity.
Defined.

Lemma bench_explain_run rest :
  explain_run (E:=Bench.libs) Bench.explain_request (Bench.ready rest)
    tt Bench.image_100 [x2a] 0 (1 # 100) (Bench.served rest).
Proof.
  split.
  - reflexivity.
  - reflexivity.
  - eexists _, _. repeat split; reflexivity.
  - reflexivity.
Defined.

Lemma bench_parsed results :
  Forall (row_parsable (has_ids results)) (raw_rows results) →
  parsed_rows Bench.class_names results 100 100
  = Return (Bench.parsed results).
Proof.
  intros Hall.
  destruct (parsed_rows_parsable Bench.class_names results 100 100 Hall)
    as [dets Hp].
  unfold Bench.parsed. by rewrite Hp.
Defined.

Lemma bench_detect results rest :
  Forall (row_parsable (has_ids results)) (raw_rows results) →
  detect (E:=Bench.libs) Bench.request (Bench.ready (results :: rest))
  = (Return (bench_answer results), Bench.served rest).
Proof.
  intros Hall.
  exact (detect_success (E:=Bench.libs) _ _ _ _ _ _ _ _ _
           (bench_detect_run results rest) (bench_parsed results Hall)).
Defined.

Ltac qcompare := unfold Qle, Qlt; cbn; lia.

Ltac all_parsable :=
  repeat constructor; first [by eexists | intros _; by eexists | discriminate].

Lemma street_parsable :
  Forall (row_parsable (has_ids Bench.street)) (raw_rows Bench.street).
Proof. all_parsable. Defined.

Lemma untracked_parsable :
  Forall (row_parsable (has_ids Bench.untracked)) (raw_rows Bench.untracked).
Proof. all_parsable. Defined.

Lemma car_inside_frame : inside_frame 100 100 Bench.car_row.
Proof. eexists. split; [reflexivity|]. repeat split; qcompare. Defined.

Lemma street_inside_frame :
  Forall (inside_frame 100 100) (raw_rows Bench.street).
Proof.
  repeat constructor; (eexists; split; [reflexivity|]; repeat split; qcompare).
Defined.

Lemma side_100 : float32_side 100.
Proof. split; reflexivity. Defined.

Lemma bench_street_detect :
  detect (E:=Bench.libs) Bench.request (Bench.ready [Bench.street])
  = (Return (bench_answer Bench.street), Bench.served []).
Proof. exact (bench_detect Bench.street [] street_parsable). Defined.

Lemma bench_untracked_detect :
  detect (E:=Bench.libs) Bench.request (Bench.ready [Bench.untracked])
  = (Return (bench_answer Bench.untracked), Bench.served []).
Proof. exact (bench_detect Bench.untracked [] untracked_parsable). Defined.

Lemma bench_street_explain :
  explain (E:=Bench.libs) Bench.explain_request (Bench.ready [Bench.street])
  = (Return (explain_response (E:=Bench.libs) Bench.image_100 [x2a]
               0 (1 # 100)),
     Bench.served [Bench.street]).
Proof.
  exact (explain_success (E:=Bench.libs) _ _ _ _ _ _ _ _
           (bench_explain_run [Bench.street])).
Defined.

Lemma garbled_bad_frame : bad_frame (E:=Bench.libs) "not-base64!!".
Proof. by apply (bad_base64 (E:=Bench.libs) _ "Incorrect padding"). Defined.

Lemma bench_life_runs :
  lifespan (E:=Bench.libs)
    [GetHealth; PostDetect Bench.request; PostExplain Bench.explain_request]
    (Bench.cold [Bench.street])
  = (Return bench_life_answers, snd bench_life).
Proof. vm_compute. reflexivity. Defined.

(** *** The numbers at work *)

Example round_tie_to_even_down : round (12345 # 100000) 4 = (1234 # 10000)%Q.
Proof. reflexivity. Qed.

Example round_tie_to_even_up : round (12355 # 100000) 4 = (1236 # 10000)%Q.
Proof. reflexivity. Qed.

Example int_truncates_toward_zero :
  int (Finite (-7 # 2)) = Return (-3) ∧ int (Finite (7 # 2)) = Return 3.
Proof. split; reflexivity. Qed.

Example int_refuses_nan_and_infinity :
  int NaN = Raise (PyError "cannot convert float NaN to integer") ∧
  int (Infinity true)
  = Raise (PyError "cannot convert float infinity to integer").
Proof. split; reflexivity. Qed.

(** Three tenths is no float32: the nearest one is 5033165 / 2^24,
    0.300000011920928955078125. *)
Example three_tenths : f32_round (3 # 10) = Finite (5033165 # 16777216).
Proof. vm_compute. reflexivity. Qed.

Example float32_limits :
  f32_round (inject_Z (2 ^ 24 + 1)) = Finite (inject_Z (2 ^ 24)) ∧
  f32_round (inject_Z (2 ^ 24 + 3)) = Finite (inject_Z (2 ^ 24 + 4)) ∧
  f32_round (inject_Z (2 ^ 128 - 2 ^ 103 - 1))
  = Finite (inject_Z (2 ^ 128 - 2 ^ 104)) ∧
  f32_round (inject_Z (2 ^ 128 - 2 ^ 103)) = Infinity false ∧
  f32_round (pow2 (-150)) = Finite 0 ∧
  f32_round (3 * pow2 (-151)) = Finite (Qred (pow2 (-149))) ∧
  f32_div (Finite 1) (Finite 0) = Infinity false ∧
  f32_div (Finite 0) (Finite 0) = NaN.
Proof. repeat split; vm_compute; reflexivity. Qed.

(** On these operands the operations agree with the Standard Library's
    model of IEEE 754 at precision 24. *)
Example agrees_with_binary32 :
  f32_add (Finite 17) (Finite (359 # 4))
  = float32_of_spec (SFadd 24 128 (binary32 17 0) (binary32 359 (-2))) ∧
  f32_sub (Finite 54) (Finite (221 # 8))
  = float32_of_spec (SFsub 24 128 (binary32 54 0) (binary32 221 (-3))) ∧
  f32_div (Finite (211 # 8)) (Finite 100)
  = float32_of_spec (SFdiv 24 128 (binary32 211 (-3)) (binary32 100 0)) ∧
  f32_mul (f32_div (Finite (211 # 8)) (Finite 100)) (Finite 10000)
  = float32_of_spec
      (SFmul 24 128 (SFdiv 24 128 (binary32 211 (-3)) (binary32 100 0))
         (binary32 10000 0)) ∧
  f32_div (Finite 2637) (Finite 10000)
  = float32_of_spec (SFdiv 24 128 (binary32 2637 0) (binary32 10000 0)) ∧
  f32_div (Finite 1) (Finite 3)
  = float32_of_spec (SFdiv 24 128 (binary32 1 0) (binary32 3 0)) ∧
  f32_mul (Finite (pow2 100)) (Finite (pow2 100))
  = float32_of_spec (SFmul 24 128 (binary32 1 100) (binary32 1 100)) ∧
  f32_div (Finite (pow2 (-100))) (Finite (pow2 60))
  = float32_of_spec (SFdiv 24 128 (binary32 1 (-100)) (binary32 1 60)).
Proof. repeat split; vm_compute; reflexivity. Qed.

(** The width of [Bench.van_row], 26.375 pixels of 100: the quotient is
    rounded below 0.26375 by the division, so that [round] goes down. *)
Example van_width :
  float32_round (f32_div (f32_sub (Finite 54) (Finite (221 # 8))) (of_int 100)) 4
  = f32_round (2637 # 10000) ∧
  round ((54 - (221 # 8)) / 100) 4 = (2638 # 10000)%Q.
Proof. split; vm_compute; reflexivity. Qed.

Example unknown_class_name :
  names_get Bench.class_names 7 = "class_7" ∧
  names_get Bench.class_names (-3) = "class_-3" ∧
  names_get Bench.class_names 1 = "bus".
Proof. repeat split; reflexivity. Qed.

Example street_detections :
  (λ d, (track_id d, class_name d, width (bbox d)))
    <$> detections (bench_answer Bench.street)
  = [ (1, "car", f32_round (4000 # 10000));
      (2, "bus", f32_round (6950 # 10000));
      (1, "car", f32_round (4000 # 10000));
      (3, "class_7", f32_round (1238 # 10000)) ].
Proof. vm_compute. reflexivity. Qed.

Example untracked_detections :
  (λ d, (track_id d, class_name d)) <$> detections (bench_answer Bench.untracked)
  = [ (-1, "car"); (-1, "bus") ].
Proof. vm_compute. reflexivity. Qed.

Example street_counts :
  count_by_class (bench_answer Bench.street)
  = {[ "car" := 2; "bus" := 1; "class_7" := 1 ]}.
Proof. apply map_eq. intros k. vm_compute. reflexivity. Qed.

Example bench_paths :
  MODEL_PATH (E:=Bench.libs) = "/srv/backend/models/best.pt" ∧
  TRACKER_CONFIG (E:=Bench.libs) = "/srv/backend/botsort.yaml".
Proof. split; reflexivity. Qed.

(** *** Witnesses *)

Lemma detect_counts_sum_witness :
  let resp := bench_answer Bench.street in
  detect (E:=Bench.libs) Bench.request (Bench.ready [Bench.street])
  = (Return resp, Bench.served []) ∧
  sum_values (count_by_class resp) = vehicle_count resp ∧
  vehicle_count resp = Z.of_nat (length (detections resp)).
Proof.
  intros resp. split; [exact bench_street_detect|].
  exact (detect_counts_sum _ _ _ _ bench_street_detect).
Defined.




Lemma bad_frame_client_error_witness :
  bad_frame (E:=Bench.libs) (frame Bench.garbled) ∧
  bad_frame (E:=Bench.libs) (explain_frame Bench.garbled_explain) ∧
  is_Some (model (globals (Bench.ready []))) ∧
  is_Some (cam_extractor (globals (Bench.ready []))) ∧
  (∃ msg, detect (E:=Bench.libs) Bench.garbled (Bench.ready [])
          = (Raise (HTTPException 400 ("Invalid frame data: " +:+ msg)),
             Bench.ready [])) ∧
  (∃ msg, explain (E:=Bench.libs) Bench.garbled_explain (Bench.ready [])
          = (Raise (HTTPException 400 ("Invalid frame: " +:+ msg)),
             after_clock (Bench.ready []))).
Proof.
  split; [apply garbled_bad_frame|]. split; [apply garbled_bad_frame|].
  assert (Hm : is_Some (model (globals (Bench.ready [])))) by (by eexists).
  assert (Hc : is_Some (cam_extractor (globals (Bench.ready []))))
    by (by eexists).
  split; [exact Hm|]. split; [exact Hc|].
  destruct (bad_frame_client_error (E:=Bench.libs) Bench.garbled
              Bench.garbled_explain (Bench.ready [])
              garbled_bad_frame garbled_bad_frame)
    as (Hd & _ & Hx & _).
  split; [exact (Hd Hm)|exact (Hx Hc)].
Defined.

Lemma unloaded_service_unavailable_witness :
  model (globals (Bench.cold [])) = None ∧
  cam_extractor (globals (Bench.cold [])) = None ∧
  detect (E:=Bench.libs) Bench.request (Bench.cold [])
  = (Raise (HTTPException 503 "Model not loaded"), Bench.cold []) ∧
  explain (E:=Bench.libs) Bench.explain_request (Bench.cold [])
  = (Raise (HTTPException 503 "Explainability model not loaded"),
     Bench.cold []) ∧
  ∃ h, health_check (Bench.cold []) = (Return h, Bench.cold []) ∧
       model_loaded h = false.
Proof.
  split; [reflexivity|]. split; [reflexivity|].
  apply (unloaded_service_unavailable (E:=Bench.libs)); reflexivity.
Defined.

Lemma shutdown_clears_only_model_witness :
  lifespan (E:=Bench.libs)
    [GetHealth; PostDetect Bench.request; PostExplain Bench.explain_request]
    (Bench.cold [Bench.street])
  = (Return bench_life_answers, snd bench_life) ∧
  model (globals (snd bench_life)) = None ∧
  is_Some (explain_model (globals (snd bench_life))) ∧
  is_Some (cam_extractor (globals (snd bench_life))).
Proof.
  split; [exact bench_life_runs|].
  exact (shutdown_clears_only_model (E:=Bench.libs) _ _ _ _ bench_life_runs).
Defined.

Lemma explain_heatmap_dimensions_witness :
  CodecLaws Bench.libs ∧
  explain_run (E:=Bench.libs) Bench.explain_request (Bench.ready [])
    tt Bench.image_100 [x2a] 0 (1 # 100) (Bench.served []) ∧
  ∃ resp,
    explain (E:=Bench.libs) Bench.explain_request (Bench.ready [])
    = (Return resp, Bench.served []) ∧
    tensor_shape (input_tensor_of (E:=Bench.libs) Bench.image_100)
    = (1, 3, 224, 224) ∧
    heatmap resp
    = @b64encode Bench.libs
        (snd (@imencode Bench.libs ".jpg"
                (cvtColor (overlay_of (E:=Bench.libs) Bench.image_100 [x2a])
                          COLOR_RGB2BGR))) ∧
    shape (overlay_of (E:=Bench.libs) Bench.image_100 [x2a])
    = shape Bench.image_100 ∧
    ∃ img, decode_frame (E:=Bench.libs) (heatmap resp) "Failed to decode"
           = Return img ∧
           shape img = shape Bench.image_100.
Proof.
  split; [exact bench_codec_laws|]. split; [apply bench_explain_run|].
  exact (explain_heatmap_dimensions (E:=Bench.libs) (laws:=bench_codec_laws)
           _ _ _ _ _ _ _ _ "Failed to decode" (bench_explain_run [])).
Defined.

(** A street with four boxes, and one with none. *)
Lemma answer_or_error_witness :
  (let resp := bench_answer Bench.street in
   detect (E:=Bench.libs) Bench.request (Bench.ready [Bench.street])
   = (Return resp, Bench.served []) ∧
   length (detections resp) = 4%nat ∧
   well_formed resp ∧
   ∃ m fr results t0 t1 dets,
     detect_run (E:=Bench.libs) Bench.request (Bench.ready [Bench.street])
       m fr results t0 t1 (Bench.served []) ∧
     Forall2 (λ row d, detection_of_row (names m) (has_ids results)
                         (snd (shape fr)) (fst (shape fr)) row
                       = Return d)
             (raw_rows results) dets ∧
     resp = detect_response fr dets t0 t1) ∧
  (detect_run (E:=Bench.libs) Bench.request (Bench.ready [Bench.empty_street])
     Bench.class_names Bench.image_100 Bench.empty_street 0 (1 # 100)
     (Bench.served []) ∧
   raw_rows Bench.empty_street = [] ∧
   ∃ resp,
     detect (E:=Bench.libs) Bench.request (Bench.ready [Bench.empty_street])
     = (Return resp, Bench.served []) ∧
     detections resp = [] ∧ vehicle_count resp = 0 ∧ count_by_class resp = ∅).
Proof.
  destruct (answer_or_error (E:=Bench.libs)) as (Hdetect & _ & Hempty).
  split.
  - intros resp. split; [exact bench_street_detect|].
    split; [reflexivity|].
    pose proof (Hdetect Bench.request (Bench.ready [Bench.street])) as H.
    rewrite bench_street_detect in H. exact H.
  - split; [apply bench_detect_run|]. split; [reflexivity|].
    exact (Hempty _ _ _ _ _ _ _ _ (bench_detect_run Bench.empty_street [])
             eq_refl).
Defined.

Lemma explain_checks_cam_extractor_only_witness :
  lifespan (E:=Bench.libs)
    [GetHealth; PostDetect Bench.request; PostExplain Bench.explain_request]
    (Bench.cold [Bench.street])
  = (Return bench_life_answers, snd bench_life) ∧
  (∀ ereq msg st'',
     explain (E:=Bench.libs) ereq (snd bench_life)
     ≠ (Raise (HTTPException 503 msg), st'')) ∧
  (∀ dreq, detect (E:=Bench.libs) dreq (snd bench_life)
           = (Raise (HTTPException 503 "Model not loaded"), snd bench_life)) ∧
  ∃ h, health_check (snd bench_life) = (Return h, snd bench_life) ∧
       model_loaded h = false.
Proof.
  split; [exact bench_life_runs|].
  destruct (explain_checks_cam_extractor_only (E:=Bench.libs)) as [_ Hlife].
  exact (Hlife _ _ _ _ bench_life_runs).
Defined.

(** *** Counterexamples *)






(** C4 as stated fails: with the detector not loaded, a malformed frame
    is answered 503, not with a 4xx error. *)
Lemma bad_frame_while_unloaded :
  ¬ (∀ (E : Externals) dreq ereq st,
       bad_frame (frame dreq) → bad_frame (explain_frame ereq) →
       (∃ code msg st',
          detect dreq st = (Raise (HTTPException code msg), st') ∧
          400 ≤ code < 500) ∧
       (∃ code msg st',
          explain ereq st = (Raise (HTTPException code msg), st') ∧
          400 ≤ code < 500)).
Proof.
  intros Hclaim.
  destruct (Hclaim Bench.libs Bench.garbled Bench.garbled_explain
              (Bench.cold []) garbled_bad_frame garbled_bad_frame)
    as [(code & msg & st' & Hd & Hcode) _].
  rewrite detect_unloaded in Hd by reflexivity.
  injection Hd as <- _ _. lia.
Qed.


(** ** Further properties of the service *)

Section Service.
Context {E : Externals}.

Lemma model_info_loaded st m :
  model (globals st) = Some m →
  model_info st
  = (Return {| model_name := "best"; model_type := "YOLOv8";
               info_tracker := "BoT-SORT"; classes := names m;
               num_classes := Z.of_nat (size (names m));
               input_size := 640;
               framework := "PyTorch (ultralytics)" |}, st).
Proof. intros Hm. unfold model_info, bind, read, mreturn. by rewrite Hm. Qed.

Lemma model_info_unloaded st :
  model (globals st) = None →
  model_info st = (Raise (HTTPException 503 "Model not loaded"), st).
Proof. intros Hm. unfold model_info, bind, read, raise. by rewrite Hm. Qed.

(** X1: the class names [detect] emits are those [model_info] lists: in
    one state, every detection is named by the [classes] entry of its
    class id, or "class_<id>" when [classes] has no such entry; and
    [num_classes] is the number of entries of [classes]. *)
Theorem model_info_names_detections req st info st1 resp st2 :
  model_info st = (Return info, st1) →
  detect req st = (Return resp, st2) →
  num_classes info = Z.of_nat (size (classes info)) ∧
  Forall (λ d, class_name d
               = default ("class_" +:+ pretty (class_id d))
                         (classes info !! class_id d))
         (detections resp).
Proof.
  intros Hi Hd.
  apply detect_Return_inv in Hd
    as (m & fr & results & t0 & t1 & dets & Hrun & Hp & ->).
  destruct Hrun as [Hm _ _ _].
  rewrite (model_info_loaded _ _ Hm) in Hi. injection Hi as <- _.
  split; [reflexivity|].
  cbn [detect_response detections classes].
  apply Forall_forall. intros d Hin.
  destruct (collect_elem_of _ _ _ _ Hp Hin) as (row & _ & Hdet).
  by apply detection_of_row_Return in Hdet as (_ & Hname & _).
Qed.

(** X2: the [model_loaded] flag of the health answer tells whether
    [detect] and [model_info] are in service: in any state the flag is
    false exactly when [detect] answers 503, and exactly when
    [model_info] answers 503. *)
Theorem model_loaded_flag st :
  ∃ h, health_check st = (Return h, st) ∧
       (model_loaded h = false ↔
        ∀ req, detect req st
               = (Raise (HTTPException 503 "Model not loaded"), st)) ∧
       (model_loaded h = false ↔
        ∃ req msg st', detect req st = (Raise (HTTPException 503 msg), st')) ∧
       (model_loaded h = false ↔
        ∃ msg st', model_info st = (Raise (HTTPException 503 msg), st')).
Proof.
  eexists. split; [apply health_check_reports|]. cbn [model_loaded].
  destruct (model (globals st)) as [m|] eqn:Hm.
  - assert (Hflag : bool_decide (is_Some (Some m)) = true)
      by (apply bool_decide_eq_true; eauto).
    rewrite Hflag.
    assert (Hno : ∀ req msg st',
               detect req st ≠ (Raise (HTTPException 503 msg), st')).
    { intros req msg st' Hd.
      destruct (detect_Raise_loaded _ _ _ _ _ Hm Hd)
        as [(m' & _ & [=])|(m' & [=])]. }
    pose (req0 := {| frame := ""; conf := DEFAULT_CONF; iou := DEFAULT_IOU;
                     imgsz := DEFAULT_IMGSZ |}).
    repeat split; try discriminate.
    + intros Hall. exfalso. by eapply (Hno req0), Hall.
    + intros (req & msg & st' & Hd). exfalso. by eapply Hno.
    + intros (msg & st' & Hi). rewrite (model_info_loaded _ _ Hm) in Hi.
      discriminate.
  - assert (Hflag : bool_decide (is_Some (@None Detector)) = false)
      by (apply bool_decide_eq_false; by intros [? ?]).
    rewrite Hflag.
    pose (req0 := {| frame := ""; conf := DEFAULT_CONF; iou := DEFAULT_IOU;
                     imgsz := DEFAULT_IMGSZ |}).
    repeat split; try done.
    + intros _ req. by apply detect_unloaded.
    + intros _. exists req0. eexists _, _. by apply detect_unloaded.
    + intros _. eexists _, _. by apply model_info_unloaded.
Qed.

(** X3: once the start-up code has run to its end the service is ready:
    the health answer has [model_loaded] true, [model_info] answers, and
    neither [detect] nor [explain] answers 503 to any request. *)
Theorem startup_makes_ready st u st' :
  lifespan_startup st = (Return u, st') →
  (∃ h, health_check st' = (Return h, st') ∧ model_loaded h = true) ∧
  (∃ info, model_info st' = (Return info, st')) ∧
  (∀ req msg st'', detect req st' ≠ (Raise (HTTPException 503 msg), st'')) ∧
  (∀ req msg st'', explain req st' ≠ (Raise (HTTPException 503 msg), st'')).
Proof.
  intros Hs. apply lifespan_startup_loaded in Hs as (m & em & cam & Hg).
  assert (Hm : model (globals st') = Some m) by (by rewrite Hg).
  assert (Hc : cam_extractor (globals st') = Some cam) by (by rewrite Hg).
  split; [|split; [|split]].
  - eexists. split; [apply health_check_reports|]. cbn [model_loaded].
    rewrite Hm. apply bool_decide_eq_true. eauto.
  - eexists. by apply model_info_loaded.
  - intros req msg st'' Hd.
    destruct (detect_Raise_loaded _ _ _ _ _ Hm Hd)
      as [(m' & _ & [=])|(m' & [=])].
  - intros req msg st'' Hx.
    destruct (explain_Raise_loaded _ _ _ _ _ Hc Hx)
      as [(m' & _ & [=])|(m' & [=])].
Qed.

(** X4: when the weights file is missing the start-up code raises
    "Model weights not found at ...", naming the path of the file,
    before it loads anything: globals and world are as they were, and
    the process serves no request. *)
Theorem startup_without_weights st :
  path_exists (world st) = false →
  lifespan_startup st
  = (Raise (PyError ("Model weights not found at " +:+ MODEL_PATH)), st) ∧
  ∀ rs, lifespan rs st
        = (Raise (PyError ("Model weights not found at " +:+ MODEL_PATH)), st).
Proof.
  intros Hp.
  assert (Hs : lifespan_startup st
               = (Raise (PyError ("Model weights not found at " +:+ MODEL_PATH)),
                  st)).
  { unfold lifespan_startup, bind, call, raise. cbn [of_lib world globals].
    rewrite Hp. cbn [negb]. by destruct st. }
  split; [exact Hs|]. intros rs. unfold lifespan. by rewrite Hs.
Qed.

(** X5: the start-up code sets the handles in order, and no request
    changes them: if the globals are in load order before start-up (as
    the freshly imported module is), they are in load order after it,
    whether it succeeds or raises half-way, and after any requests
    served from there.  So before shutdown [explain] is never in service
    while [detect] is not. *)
Theorem startup_keeps_load_order st :
  loaded_in_order (globals st) →
  loaded_in_order (globals (snd (lifespan_startup st))) ∧
  ∀ rs, loaded_in_order (globals (snd (serve rs (snd (lifespan_startup st))))).
Proof.
  intros [Hce Hem].
  assert (Hstart : loaded_in_order (globals (snd (lifespan_startup st)))).
  { unfold lifespan_startup, bind, call, assign, raise.
    cbn [of_lib world globals].
    destruct (path_exists (world st)); cbn [negb world globals snd];
      [|by split].
    destruct (YOLO (world st)) as [[m|msg] w1];
      cbn [of_lib world globals snd]; [|by split].
    destruct (predict m _ w1) as [[[]|msg] w2];
      cbn [of_lib world globals snd model explain_model cam_extractor];
      [|split; cbn; eauto].
    destruct (mobilenet_v3_small w2) as [[em|msg] w3];
      cbn [of_lib world globals snd model explain_model cam_extractor];
      [|split; cbn; eauto].
    destruct (GradCAM em w3) as [[cam|msg] w4];
      cbn [of_lib world globals snd model explain_model cam_extractor];
      split; cbn; eauto. }
  split; [exact Hstart|]. intros rs. by rewrite serve_globals.
Qed.

(** X6: no request writes the globals: after any one request, and after
    any sequence of requests, [model], [explain_model] and
    [cam_extractor] hold what they held before, whether the requests were
    answered or refused. *)
Theorem requests_leave_globals :
  (∀ r st, globals (snd (handle r st)) = globals st) ∧
  (∀ rs st, globals (snd (serve rs st)) = globals st).
Proof.
  split.
  - intros r st. apply readonly_handle.
  - intros rs st. apply serve_globals.
Qed.

End Service.

(** ** Where a request can fail *)

Section Failures.
Context {E : Externals}.

(** X7: with the detector loaded and a frame that decodes, [detect]
    stands or falls with the tracker and with [int].  When the tracker
    raises, [detect] raises that very exception, uncaught.  When the
    tracker answers, [detect] answers, with one detection per box,
    exactly when every class cell, and every id cell if the tracker
    filled any, is finite; otherwise it raises the [ValueError] or
    [OverflowError] that [int] raises on NaN or on an infinity. *)
Theorem detect_fails_only_with_tracker req st m fr t0 w0 :
  model (globals st) = Some m →
  decode_frame (frame req) "Failed to decode image" = Return fr →
  perf_counter (world st) = (t0, w0) →
  match track m fr TRACKER_CONFIG true (conf req) (iou req) (imgsz req) w0 with
  | (Done results, w1) =>
      (Forall (row_parsable (has_ids results)) (raw_rows results) ∧
       ∃ resp st', detect req st = (Return resp, st') ∧
                   length (detections resp) = length (raw_rows results)) ∨
      (¬ Forall (row_parsable (has_ids results)) (raw_rows results) ∧
       ∃ e st', detect req st = (Raise e, st') ∧ int_error e)
  | (Fails msg, w1) =>
      detect req st
      = (Raise (PyError msg), {| globals := globals st; world := w1 |})
  end.
Proof.
  intros Hm Hfr Ht0.
  destruct (track _ _ _ _ _ _ _ _) as [[results|msg] w1] eqn:Htr.
  - destruct (perf_counter w1) as [t1 w2] eqn:Ht1.
    assert (Hrun : detect_run req st m fr results t0 t1
                     {| globals := globals st; world := w2 |}).
    { split; cbn; eauto 10. }
    pose proof (detect_tracked _ _ _ _ _ _ _ _ Hrun) as Hd.
    destruct (parsed_rows _ _ _ _) as [dets|e] eqn:Hp.
    + left. split.
      * apply Forall_forall. intros row Hin.
        apply list_elem_of_lookup in Hin as [i Hi].
        destruct (collect_lookup _ _ _ _ _ Hp Hi) as (d & _ & Hdet).
        destruct (detection_of_row_Return _ _ _ _ _ _ Hdet)
          as ((cls & Hcls & _) & _ & _ & _ & _ & Hid).
        split; [by eexists|]. intros Htracked.
        destruct (Hid Htracked) as (t & Ht & _). by eexists.
      * eexists _, _. split; [exact Hd|].
        cbn [detect_response detections]. by eapply collect_length.
    + right. apply parsed_rows_Raise in Hp as [He Hno].
      split; [done|]. by eexists _, _.
  - by eapply detect_tracker_fails.
Qed.

(** X8: with the extractor loaded and a frame that decodes, [explain]
    stands or falls with the Grad-CAM call: when it answers, [explain]
    answers, for a frame of any shape; when it raises, [explain] raises
    that very exception, uncaught.  Resizing and blending never fail. *)
Theorem explain_fails_only_with_cam req st cam fr t0 w0 :
  cam_extractor (globals st) = Some cam →
  decode_frame (explain_frame req) "Failed to decode" = Return fr →
  perf_counter (world st) = (t0, w0) →
  match cam_call cam (input_tensor_of fr) None w0 with
  | (Done saliency, w1) =>
      ∃ resp st', explain req st = (Return resp, st')
  | (Fails msg, w1) =>
      explain req st
      = (Raise (PyError msg), {| globals := globals st; world := w1 |})
  end.
Proof.
  intros Hc Hfr Ht0.
  destruct (cam_call cam (input_tensor_of fr) None w0)
    as [[saliency|msg] w1] eqn:Hcall.
  - destruct (perf_counter w1) as [t1 w2] eqn:Ht1.
    assert (Hrun : explain_run req st cam fr saliency t0 t1
                     {| globals := globals st; world := w2 |}).
    { split; cbn; eauto 10. }
    eexists _, _. eapply explain_success, Hrun.
  - unfold explain, bind, read, try_except, lift, now, call, mreturn.
    rewrite Hc. cbn [world globals]. rewrite Ht0. cbn [world globals of_lib].
    rewrite Hfr. unfold cam_first. fold (input_tensor_of fr).
    cbn [input_tensor_of to_input_tensor tensor_shape resize shape fst snd].
    fold (input_tensor_of fr). cbn [world globals]. rewrite Hcall.
    reflexivity.
Qed.

End Failures.

(** ** Counts per class *)

Lemma lookup_count_incr counts a k :
  count_incr counts a !! k
  = if decide (a = k) then Some (default 0 (counts !! k) + 1) else counts !! k.
Proof.
  unfold count_incr. destruct (decide (a = k)) as [->|Hne].
  - by rewrite lookup_insert_eq.
  - by rewrite lookup_insert_ne.
Qed.

Lemma lookup_foldl_count_incr {A} (f : A → string) (l : list A) :
  ∀ counts k,
    foldl count_incr counts (f <$> l) !! k
    = let n := Z.of_nat (length (filter (λ a, f a = k) l)) in
      if n =? 0 then counts !! k else Some (default 0 (counts !! k) + n).
Proof.
  induction l as [|a l IH]; intros counts k; [reflexivity|].
  cbn [fmap list_fmap foldl]. rewrite IH, lookup_count_incr, filter_cons.
  cbv zeta. destruct (decide (f a = k)) as [Heq|Hne]; cbn [length default];
    unfold id.
  - destruct (Z.eqb_spec (Z.of_nat (length (filter (λ a0, f a0 = k) l))) 0)
      as [H0|H0];
    destruct (Z.eqb_spec
                (Z.of_nat (S (length (filter (λ a0, f a0 = k) l)))) 0)
      as [H1|H1]; try lia; f_equal; lia.
  - reflexivity.
Qed.

Section Counts.
Context {E : Externals}.

(** X9: [count_by_class] counts each class name exactly: in every answer
    of [detect] the entry of a name is the number of detections that
    carry it, and a name no detection carries has no entry (there are no
    zero entries). *)
Theorem detect_count_by_class_exact req st resp st' :
  detect req st = (Return resp, st') →
  ∀ name,
    count_by_class resp !! name
    = if count_name name (detections resp) =? 0 then None
      else Some (count_name name (detections resp)).
Proof.
  intros Hd name.
  apply detect_Return_inv in Hd
    as (m & fr & results & t0 & t1 & dets & _ & _ & ->).
  unfold count_name. cbn [detect_response count_by_class detections].
  rewrite lookup_foldl_count_incr. cbv zeta.
  rewrite lookup_empty. cbn [default].
  by destruct (_ =? 0).
Qed.

(** X16: unknown classes are kept apart: in an answer of [detect], two
    detections whose class ids are both missing from the names table
    carry the same synthesized name only when they have the same class
    id, so their counts are never merged. *)
Theorem detect_unknown_classes_distinct req st resp st' :
  detect req st = (Return resp, st') →
  ∃ m, model (globals st) = Some m ∧
       ∀ d1 d2, d1 ∈ detections resp → d2 ∈ detections resp →
         names m !! class_id d1 = None → names m !! class_id d2 = None →
         class_name d1 = class_name d2 → class_id d1 = class_id d2.
Proof.
  intros Hd.
  apply detect_Return_inv in Hd
    as (m & fr & results & t0 & t1 & dets & Hrun & Hp & ->).
  destruct Hrun as [Hm _ _ _]. exists m. split; [exact Hm|].
  cbn [detect_response detections].
  intros d1 d2 H1 H2.
  destruct (collect_elem_of _ _ _ _ Hp H1) as (r1 & _ & Hd1).
  destruct (collect_elem_of _ _ _ _ Hp H2) as (r2 & _ & Hd2).
  apply detection_of_row_Return in Hd1 as (_ & -> & _).
  apply detection_of_row_Return in Hd2 as (_ & -> & _).
  unfold names_get. intros -> ->. cbn [default]. intros Heq.
  apply (inj (String.append "class_")) in Heq.
  by apply (inj pretty) in Heq.
Qed.

End Counts.

(** ** How far rounding moves a value *)

Section Precision.
Context {E : Externals}.

(** X10: the confidence [detect] emits is the detector's confidence
    rounded to four places: it differs from it by at most 0.00005, is a
    whole number of ten-thousandths, and stays within [0,1] when the
    detector's confidence is. *)
Theorem detect_confidence_rounded req st resp st' :
  detect req st = (Return resp, st') →
  ∃ m fr results t0 t1,
    detect_run req st m fr results t0 t1 st' ∧
    ∀ i row, raw_rows results !! i = Some row →
      ∃ d, detections resp !! i = Some d ∧
           four_decimals (confidence d) ∧
           (Qabs (confidence d - row_conf row) <= 1 # 20000)%Q ∧
           (unit_interval (row_conf row) → unit_interval (confidence d)).
Proof.
  intros Hd.
  apply detect_Return_rows in Hd
    as (m & fr & results & t0 & t1 & Hrun & _ & _ & Hrows).
  exists m, fr, results, t0, t1. split; [done|].
  intros i row Hrow. destruct (Hrows i row Hrow) as (d & Hd & Hdet).
  exists d. split; [done|].
  apply detection_of_row_Return in Hdet as (_ & _ & -> & _).
  split; [apply round4_four_decimals|].
  split; [apply round4_error|apply round4_unit_interval].
Qed.

(** X11: for a box inside a frame whose sides float32 holds exactly, no
    field of the emitted box is further than 0.000051 from the exact
    centre or extent of the raw box divided by the frame size: half a
    unit of the fourth place for the rounding, and less than a millionth
    for the float32 operations around it. *)
Theorem detect_bbox_rounding_error req st resp st' :
  detect req st = (Return resp, st') →
  float32_side (frame_width resp) → float32_side (frame_height resp) →
  ∃ m fr results t0 t1,
    detect_run req st m fr results t0 t1 st' ∧
    ∀ i row xyxy,
      raw_rows results !! i = Some row → corners row = Some xyxy →
      inside (frame_width resp) (frame_height resp) xyxy →
      ∃ d, detections resp !! i = Some d ∧
           bbox_within (51 # 1000000) (bbox d)
             (exact_bbox xyxy (frame_width resp) (frame_height resp)).
Proof.
  intros Hd Hw Hh.
  apply detect_Return_rows in Hd
    as (m & fr & results & t0 & t1 & Hrun & _ & _ & Hrows).
  exists m, fr, results, t0, t1. split; [done|].
  intros i row [[[x1 y1] x2] y2] Hrow Hc Hin.
  destruct (Hrows i row Hrow) as (d & Hd & Hdet).
  exists d. split; [done|].
  apply detection_of_row_Return in Hdet as (_ & _ & _ & Hbox & _).
  rewrite Hbox, (corners_Some _ _ _ _ _ Hc).
  destruct (normalized_bbox_inside x1 y1 x2 y2 _ _ Hw Hh Hin)
    as (_ & _ & Hnear & _).
  exact Hnear.
Qed.

End Precision.

(** ** The viewer script *)

Module LiveViewFacts.
Import LiveView.

Lemma show_only_imshow {Frame} (ticks : list (Tick Frame)) last :
  Forall (λ e, ∃ mat, e = Imshow winname mat) (fst (show ticks last)).
Proof.
  induction ticks as [|r rest IH]; cbn [show]; [constructor|].
  destruct (plot r) as [annotated|f]; [|constructor].
  destruct (imshow r) as [[]|f]; [|constructor].
  destruct (waitKey r) as [key|f]; [|repeat constructor; eauto].
  destruct (quits key); [repeat constructor; eauto|].
  destruct (show rest last) as [events raised]. cbn [fst] in *.
  constructor; eauto.
Qed.

Lemma show_turns {Frame} (pre : list (Frame * Z)) (rest : list (Tick Frame)) last :
  Forall (λ p, quits (snd p) = false) pre →
  show (((λ p, turn (fst p) (snd p)) <$> pre) ++ rest) last
  = ((Imshow winname ∘ fst <$> pre) ++ fst (show rest last),
     snd (show rest last)).
Proof.
  induction pre as [|[f k] pre IH]; intros Hpre.
  - cbn. by destruct (show rest last).
  - apply Forall_cons in Hpre as [Hk Hpre]. cbn in Hk.
    cbn [fmap list_fmap app show turn plot imshow waitKey fst snd].
    rewrite Hk. fold (fmap (M:=list) (λ p : Frame * Z, turn (fst p) (snd p))).
    rewrite (IH Hpre). reflexivity.
Qed.

(** X13: the [finally] clause runs on every path of the script.  Once the
    detector and the stream exist, whatever the loop showed and however
    it ended, [cv2.destroyAllWindows()] is called after everything else:
    when it returns, the windows are closed exactly once, as the last
    event, and the script ends with what the loop left pending, nothing
    for a [cv2.error]; when it raises, no window is closed and its
    exception replaces the pending one.  When loading fails nothing is
    shown and nothing is closed. *)
Theorem script_closes_windows {Frame} (ticks : list (Tick Frame)) last :
  ∃ body : list (Event Frame),
    (DestroyAllWindows ∉ body) ∧
    script (Fine tt) ticks last (Fine tt)
    = (body ++ [DestroyAllWindows], pending_after (snd (show ticks last))) ∧
    (∀ f, script (Fine tt) ticks last (Broken f) = (body, Some f)) ∧
    (∀ f destroy, script (Broken f) ticks last destroy = ([], Some f)).
Proof.
  pose proof (show_only_imshow ticks last) as Hshown.
  unfold script. destruct (show ticks last) as [shown raised].
  cbn [fst snd] in *.
  assert (Hno : DestroyAllWindows ∉ shown).
  { intros Hin. rewrite Forall_forall in Hshown.
    by destruct (Hshown _ Hin) as [mat [=]]. }
  destruct raised as [[msg|msg]|]; eexists; (split; [|by repeat split]);
    rewrite not_elem_of_cons, not_elem_of_app; (split; [done|]);
    (split; [done|]);
    rewrite ?not_elem_of_cons; repeat split; try done; apply not_elem_of_nil.
Qed.

(** X14: the loop shows the frames in order and stops at the first key
    whose low byte is ['q']: the frame of that turn is the last one
    shown, the rest of the stream is never touched, whatever it would
    have done, and the script ends normally.  Without such a key every
    frame of the stream is shown. *)
Theorem script_stops_at_q {Frame} (pre : list (Frame * Z)) (f : Frame)
    (k : Z) (post : list (Tick Frame)) last :
  Forall (λ p, quits (snd p) = false) pre →
  quits k = true →
  script (Fine tt) (((λ p, turn (fst p) (snd p)) <$> pre) ++ turn f k :: post)
         last (Fine tt)
  = (Print starting :: (Imshow winname <$> (fst <$> pre) ++ [f])
       ++ [DestroyAllWindows], None) ∧
  script (Fine tt) ((λ p, turn (fst p) (snd p)) <$> pre) None (Fine tt)
  = (Print starting :: (Imshow winname <$> (fst <$> pre))
       ++ [DestroyAllWindows], None).
Proof.
  intros Hpre Hk. split.
  - unfold script. rewrite (show_turns pre _ last Hpre).
    cbn [show turn plot imshow waitKey]. rewrite Hk. cbn [fst snd].
    rewrite fmap_app, <- list_fmap_compose, !app_nil_r. reflexivity.
  - unfold script.
    rewrite <- (app_nil_r (_ <$> pre)), (show_turns pre [] None Hpre).
    cbn [show fst snd]. rewrite !app_nil_r, <- list_fmap_compose.
    reflexivity.
Qed.

(** X15: the quit test looks at the low byte of the key code only: a key
    quits exactly when its code is 113 modulo 256.  So the -1 that
    [waitKey] returns when no key was pressed never quits, and ['q']
    quits whatever higher bits the code carries. *)
Theorem quits_low_byte :
  (∀ key, quits key = true ↔ key mod 256 = 113) ∧
  quits (-1) = false ∧
  (∀ n, quits (113 + 256 * n) = true).
Proof.
  assert (Hiff : ∀ key, quits key = true ↔ key mod 256 = 113).
  { intros key. unfold quits. rewrite Z.eqb_eq.
    change 255 with (Z.ones 8). rewrite Z.land_ones by lia.
    reflexivity. }
  split; [exact Hiff|]. split; [reflexivity|].
  intros n. apply Hiff.
  rewrite (Z.mul_comm 256 n), Z.mod_add by lia. reflexivity.
Qed.

End LiveViewFacts.

(** ** What a handler reads *)

Section Reads.
Context {E : Externals}.

Lemma explain_cam_fails req st cam fr t0 w0 msg w1 :
  cam_extractor (globals st) = Some cam →
  decode_frame (explain_frame req) "Failed to decode" = Return fr →
  perf_counter (world st) = (t0, w0) →
  cam_call cam (input_tensor_of fr) None w0 = (Fails msg, w1) →
  explain req st
  = (Raise (PyError msg), {| globals := globals st; world := w1 |}).
Proof.
  intros Hc Hfr Ht0 Hcall.
  unfold explain, bind, read, try_except, lift, now, call, mreturn.
  rewrite Hc. cbn [world globals]. rewrite Ht0. cbn [world globals of_lib].
  rewrite Hfr. unfold cam_first. fold (input_tensor_of fr).
  cbn [input_tensor_of to_input_tensor tensor_shape resize shape fst snd].
  fold (input_tensor_of fr). cbn [world globals]. rewrite Hcall.
  reflexivity.
Qed.

Lemma detect_depends_on_model req st1 st2 :
  model (globals st1) = model (globals st2) → world st1 = world st2 →
  fst (detect req st1) = fst (detect req st2) ∧
  world (snd (detect req st1)) = world (snd (detect req st2)).
Proof.
  intros Hm Hw.
  destruct (model (globals st1)) as [m|] eqn:Hm1; symmetry in Hm.
  2:{ by rewrite !detect_unloaded. }
  destruct (decode_frame (frame req) "Failed to decode image") as [fr|e] eqn:Hfr.
  2:{ apply decode_frame_raises in Hfr as Hbad. destruct Hbad as [_ [msg ->]].
      by rewrite (detect_undecodable _ _ _ _ Hm1 Hfr),
                 (detect_undecodable _ _ _ _ Hm Hfr). }
  destruct (perf_counter (world st1)) as [t0 w0] eqn:Ht0.
  assert (Ht0' : perf_counter (world st2) = (t0, w0)) by (by rewrite <- Hw).
  destruct (track m fr TRACKER_CONFIG true (conf req) (iou req) (imgsz req) w0)
    as [[results|msg] w1] eqn:Htr.
  - destruct (perf_counter w1) as [t1 w2] eqn:Ht1.
    assert (H1 : detect_run req st1 m fr results t0 t1
                   {| globals := globals st1; world := w2 |})
      by (split; cbn; eauto 10).
    assert (H2 : detect_run req st2 m fr results t0 t1
                   {| globals := globals st2; world := w2 |})
      by (split; cbn; eauto 10).
    by rewrite (detect_tracked _ _ _ _ _ _ _ _ H1),
               (detect_tracked _ _ _ _ _ _ _ _ H2).
  - by rewrite (detect_tracker_fails _ _ _ _ _ _ _ _ Hm1 Hfr Ht0 Htr),
               (detect_tracker_fails _ _ _ _ _ _ _ _ Hm Hfr Ht0' Htr).
Qed.

Lemma explain_depends_on_cam_extractor req st1 st2 :
  cam_extractor (globals st1) = cam_extractor (globals st2) →
  world st1 = world st2 →
  fst (explain req st1) = fst (explain req st2) ∧
  world (snd (explain req st1)) = world (snd (explain req st2)).
Proof.
  intros Hc Hw.
  destruct (cam_extractor (globals st1)) as [cam|] eqn:Hc1; symmetry in Hc.
  2:{ by rewrite !explain_unloaded. }
  destruct (decode_frame (explain_frame req) "Failed to decode")
    as [fr|e] eqn:Hfr.
  2:{ apply decode_frame_raises in Hfr as Hbad. destruct Hbad as [_ [msg ->]].
      rewrite (explain_undecodable _ _ _ _ Hc1 Hfr),
              (explain_undecodable _ _ _ _ Hc Hfr).
      unfold after_clock. cbn. by rewrite Hw. }
  destruct (perf_counter (world st1)) as [t0 w0] eqn:Ht0.
  assert (Ht0' : perf_counter (world st2) = (t0, w0)) by (by rewrite <- Hw).
  destruct (cam_call cam (input_tensor_of fr) None w0)
    as [[saliency|msg] w1] eqn:Hcall.
  - destruct (perf_counter w1) as [t1 w2] eqn:Ht1.
    assert (H1 : explain_run req st1 cam fr saliency t0 t1
                   {| globals := globals st1; world := w2 |})
      by (split; cbn; eauto 10).
    assert (H2 : explain_run req st2 cam fr saliency t0 t1
                   {| globals := globals st2; world := w2 |})
      by (split; cbn; eauto 10).
    by rewrite (explain_success _ _ _ _ _ _ _ _ H1),
               (explain_success _ _ _ _ _ _ _ _ H2).
  - by rewrite (explain_cam_fails _ _ _ _ _ _ _ _ Hc1 Hfr Ht0 Hcall),
               (explain_cam_fails _ _ _ _ _ _ _ _ Hc Hfr Ht0' Hcall).
Qed.

(** X17: each handler reads one global only.  In two states with the same
    world, [detect] gives the same answer or error and leaves the same
    world whenever [model] is the same, whatever the other two globals
    hold; and so does [explain] whenever [cam_extractor] is the same.
    In particular [explain] answers after shutdown as it did before. *)
Theorem handlers_read_one_global st1 st2 :
  world st1 = world st2 →
  (model (globals st1) = model (globals st2) →
   ∀ req, fst (detect req st1) = fst (detect req st2) ∧
          world (snd (detect req st1)) = world (snd (detect req st2))) ∧
  (cam_extractor (globals st1) = cam_extractor (globals st2) →
   ∀ req, fst (explain req st1) = fst (explain req st2) ∧
          world (snd (explain req st1)) = world (snd (explain req st2))).
Proof.
  intros Hw. split.
  - intros Hm req. by apply detect_depends_on_model.
  - intros Hc req. by apply explain_depends_on_cam_extractor.
Qed.

(** X18: the two handlers reject the same frames.  With both handles
    loaded, [detect] answers 400 to a frame exactly when [explain]
    answers 400 to it, and that is exactly when the frame fails to
    decode. *)
Theorem handlers_reject_same_frames dreq ereq st m cam :
  model (globals st) = Some m →
  cam_extractor (globals st) = Some cam →
  frame dreq = explain_frame ereq →
  ((∃ msg st', detect dreq st = (Raise (HTTPException 400 msg), st'))
   ↔ bad_frame (frame dreq)) ∧
  ((∃ msg st', explain ereq st = (Raise (HTTPException 400 msg), st'))
   ↔ bad_frame (frame dreq)).
Proof.
  intros Hm Hc Hframe. split; split.
  - intros (msg & st' & Hd).
    destruct (detect_Raise_loaded _ _ _ _ _ Hm Hd)
      as [(msg' & Hbad & _)|(msg' & [=])]. exact Hbad.
  - intros Hbad.
    destruct (decode_frame_bad _ "Failed to decode image" Hbad) as [msg Hfr].
    eexists _, _. by eapply detect_undecodable.
  - intros (msg & st' & Hx).
    destruct (explain_Raise_loaded _ _ _ _ _ Hc Hx)
      as [(msg' & Hbad & _)|(msg' & [=])]. by rewrite Hframe.
  - intros Hbad. rewrite Hframe in Hbad.
    destruct (decode_frame_bad _ "Failed to decode" Hbad) as [msg Hfr].
    eexists _, _. by eapply explain_undecodable.
Qed.

End Reads.

Section FrameSize.
Context {E : Externals} {laws : CodecLaws E}.

(** X19: under the codec contracts every answer of [detect] reports the
    size of the decoded frame, and both [frame_width] and [frame_height]
    are positive, so the normalisation never divides by zero. *)
Theorem detect_frame_size_positive req st resp st' :
  detect req st = (Return resp, st') →
  ∃ fr, decode_frame (frame req) "Failed to decode image" = Return fr ∧
        shape fr = (frame_height resp, frame_width resp) ∧
        0 < frame_width resp ∧ 0 < frame_height resp.
Proof.
  intros Hd.
  apply detect_Return_inv in Hd
    as (m & fr & results & t0 & t1 & dets & Hrun & _ & ->).
  destruct Hrun as [_ Hfr _ _]. exists fr. split; [exact Hfr|].
  destruct (decode_frame_positive _ _ _ Hfr) as [Hh Hw].
  cbn [detect_response frame_width frame_height].
  split; [by destruct (shape fr)|]. by split.
Qed.

End FrameSize.

(** ** Witnesses of the further properties *)

Lemma model_info_names_detections_witness :
  ∃ info resp,
    model_info (E:=Bench.libs) (Bench.ready [Bench.street])
    = (Return info, Bench.ready [Bench.street]) ∧
    detect (E:=Bench.libs) Bench.request (Bench.ready [Bench.street])
    = (Return resp, Bench.served []) ∧
    num_classes info = Z.of_nat (size (classes info)) ∧
    Forall (λ d, class_name d
                 = default ("class_" +:+ pretty (class_id d))
                           (classes info !! class_id d))
           (detections resp).
Proof.
  eexists _, _.
  pose proof (model_info_loaded (E:=Bench.libs) (Bench.ready [Bench.street])
                Bench.class_names eq_refl) as Hi.
  split; [exact Hi|]. split; [exact bench_street_detect|].
  exact (model_info_names_detections (E:=Bench.libs) _ _ _ _ _ _
           Hi bench_street_detect).
Defined.

Lemma startup_makes_ready_witness :
  lifespan_startup (E:=Bench.libs) (Bench.cold [])
  = (Return tt, Bench.ready []) ∧
  (∃ h, health_check (Bench.ready []) = (Return h, Bench.ready []) ∧
        model_loaded h = true) ∧
  (∃ info, model_info (E:=Bench.libs) (Bench.ready [])
           = (Return info, Bench.ready [])) ∧
  (∀ req msg st'',
     detect (E:=Bench.libs) req (Bench.ready [])
     ≠ (Raise (HTTPException 503 msg), st'')) ∧
  (∀ req msg st'',
     explain (E:=Bench.libs) req (Bench.ready [])
     ≠ (Raise (HTTPException 503 msg), st'')).
Proof.
  assert (Hs : lifespan_startup (E:=Bench.libs) (Bench.cold [])
               = (Return tt, Bench.ready [])) by reflexivity.
  split; [exact Hs|].
  exact (startup_makes_ready (E:=Bench.libs) _ _ _ Hs).
Defined.

Lemma startup_without_weights_witness :
  path_exists (Externals:=Bench.libs) (world Bench.no_weights) = false ∧
  lifespan_startup (E:=Bench.libs) Bench.no_weights
  = (Raise (PyError
              "Model weights not found at /srv/backend/models/best.pt"),
     Bench.no_weights) ∧
  ∀ rs, lifespan (E:=Bench.libs) rs Bench.no_weights
        = (Raise (PyError
                    "Model weights not found at /srv/backend/models/best.pt"),
           Bench.no_weights).
Proof.
  split; [reflexivity|].
  exact (startup_without_weights (E:=Bench.libs) Bench.no_weights eq_refl).
Defined.

Lemma initial_globals_in_order :
  loaded_in_order (E:=Bench.libs) (globals (Bench.cold [Bench.street])).
Proof. split; cbn; intros [? [=]]. Defined.

Lemma startup_keeps_load_order_witness :
  loaded_in_order (E:=Bench.libs) (globals (Bench.cold [Bench.street])) ∧
  loaded_in_order
    (globals (snd (lifespan_startup (E:=Bench.libs)
                     (Bench.cold [Bench.street])))) ∧
  ∀ rs, loaded_in_order
          (globals (snd (serve rs
             (snd (lifespan_startup (E:=Bench.libs)
                     (Bench.cold [Bench.street])))))).
Proof.
  split; [exact initial_globals_in_order|].
  exact (startup_keeps_load_order (E:=Bench.libs) _ initial_globals_in_order).
Defined.

(** A street the loop parses, and one with a class cell that is NaN. *)
Lemma detect_fails_only_with_tracker_witness :
  model (globals (Bench.ready [Bench.street])) = Some Bench.class_names ∧
  decode_frame (E:=Bench.libs) (frame Bench.request) "Failed to decode image"
  = Return Bench.image_100 ∧
  ((Forall (row_parsable (has_ids Bench.street)) (raw_rows Bench.street) ∧
    ∃ resp st',
      detect (E:=Bench.libs) Bench.request (Bench.ready [Bench.street])
      = (Return resp, st') ∧
      length (detections resp) = length (raw_rows Bench.street)) ∨
   (¬ Forall (row_parsable (has_ids Bench.street)) (raw_rows Bench.street) ∧
    ∃ e st',
      detect (E:=Bench.libs) Bench.request (Bench.ready [Bench.street])
      = (Raise e, st') ∧ int_error e)) ∧
  ((Forall (row_parsable (has_ids Bench.blank)) (raw_rows Bench.blank) ∧
    ∃ resp st',
      detect (E:=Bench.libs) Bench.request (Bench.ready [Bench.blank])
      = (Return resp, st') ∧
      length (detections resp) = length (raw_rows Bench.blank)) ∨
   (¬ Forall (row_parsable (has_ids Bench.blank)) (raw_rows Bench.blank) ∧
    ∃ e st',
      detect (E:=Bench.libs) Bench.request (Bench.ready [Bench.blank])
      = (Raise e, st') ∧ int_error e)).
Proof.
  split; [reflexivity|]. split; [reflexivity|]. split.
  - exact (detect_fails_only_with_tracker (E:=Bench.libs) Bench.request
             (Bench.ready [Bench.street]) Bench.class_names Bench.image_100
             _ _ eq_refl eq_refl eq_refl).
  - exact (detect_fails_only_with_tracker (E:=Bench.libs) Bench.request
             (Bench.ready [Bench.blank]) Bench.class_names Bench.image_100
             _ _ eq_refl eq_refl eq_refl).
Defined.

Example blank_class_cell_fails_the_request :
  detect (E:=Bench.libs) Bench.request (Bench.ready [Bench.blank])
  = (Raise (PyError "cannot convert float NaN to integer"), Bench.served []).
Proof. vm_compute. reflexivity. Qed.

Lemma explain_fails_only_with_cam_witness :
  cam_extractor (globals (Bench.ready [])) = Some tt ∧
  decode_frame (E:=Bench.libs) (explain_frame Bench.explain_request)
    "Failed to decode"
  = Return Bench.image_100 ∧
  (∃ resp st',
     explain (E:=Bench.libs) Bench.explain_request (Bench.ready [])
     = (Return resp, st')).
Proof.
  split; [reflexivity|]. split; [reflexivity|].
  exact (explain_fails_only_with_cam (E:=Bench.libs) Bench.explain_request
           (Bench.ready []) tt Bench.image_100 _ _ eq_refl eq_refl eq_refl).
Defined.

Lemma detect_count_by_class_exact_witness :
  let resp := bench_answer Bench.street in
  detect (E:=Bench.libs) Bench.request (Bench.ready [Bench.street])
  = (Return resp, Bench.served []) ∧
  ∀ name,
    count_by_class resp !! name
    = if count_name name (detections resp) =? 0 then None
      else Some (count_name name (detections resp)).
Proof.
  intros resp. split; [exact bench_street_detect|].
  exact (detect_count_by_class_exact (E:=Bench.libs) _ _ _ _
           bench_street_detect).
Defined.

Lemma detect_unknown_classes_distinct_witness :
  let resp := bench_answer Bench.street in
  detect (E:=Bench.libs) Bench.request (Bench.ready [Bench.street])
  = (Return resp, Bench.served []) ∧
  ∃ m, model (globals (Bench.ready [Bench.street])) = Some m ∧
       ∀ d1 d2, d1 ∈ detections resp → d2 ∈ detections resp →
         names (Externals:=Bench.libs) m !! class_id d1 = None →
         names (Externals:=Bench.libs) m !! class_id d2 = None →
         class_name d1 = class_name d2 → class_id d1 = class_id d2.
Proof.
  intros resp. split; [exact bench_street_detect|].
  exact (detect_unknown_classes_distinct (E:=Bench.libs) _ _ _ _
           bench_street_detect).
Defined.

Lemma detect_confidence_rounded_witness :
  let resp := bench_answer Bench.street in
  detect (E:=Bench.libs) Bench.request (Bench.ready [Bench.street])
  = (Return resp, Bench.served []) ∧
  ∃ m fr results t0 t1,
    detect_run (E:=Bench.libs) Bench.request (Bench.ready [Bench.street])
      m fr results t0 t1 (Bench.served []) ∧
    ∀ i row, raw_rows results !! i = Some row →
      ∃ d, detections resp !! i = Some d ∧
           four_decimals (confidence d) ∧
           (Qabs (confidence d - row_conf row) <= 1 # 20000)%Q ∧
           (unit_interval (row_conf row) → unit_interval (confidence d)).
Proof.
  intros resp. split; [exact bench_street_detect|].
  exact (detect_confidence_rounded (E:=Bench.libs) _ _ _ _
           bench_street_detect).
Defined.

Lemma detect_bbox_rounding_error_witness :
  let resp := bench_answer Bench.street in
  detect (E:=Bench.libs) Bench.request (Bench.ready [Bench.street])
  = (Return resp, Bench.served []) ∧
  float32_side (frame_width resp) ∧ float32_side (frame_height resp) ∧
  Forall (inside_frame (frame_width resp) (frame_height resp))
         (raw_rows Bench.street) ∧
  ∃ m fr results t0 t1,
    detect_run (E:=Bench.libs) Bench.request (Bench.ready [Bench.street])
      m fr results t0 t1 (Bench.served []) ∧
    ∀ i row xyxy,
      raw_rows results !! i = Some row → corners row = Some xyxy →
      inside (frame_width resp) (frame_height resp) xyxy →
      ∃ d, detections resp !! i = Some d ∧
           bbox_within (51 # 1000000) (bbox d)
             (exact_bbox xyxy (frame_width resp) (frame_height resp)).
Proof.
  intros resp. split; [exact bench_street_detect|].
  split; [exact side_100|]. split; [exact side_100|].
  split; [exact street_inside_frame|].
  exact (detect_bbox_rounding_error (E:=Bench.libs) _ _ _ _
           bench_street_detect side_100 side_100).
Defined.

Lemma script_stops_at_q_witness :
  let pre := [(1%nat, -1); (2%nat, 97)] in
  let post := [ {| LiveView.plot := LiveView.Broken (LiveView.other_error "end of file");
                   LiveView.imshow := LiveView.Fine tt;
                   LiveView.waitKey := LiveView.Fine 113 |} ] in
  Forall (λ p, LiveView.quits (snd p) = false) pre ∧
  LiveView.quits 113 = true ∧
  LiveView.script (LiveView.Fine tt)
    (((λ p, LiveView.turn (fst p) (snd p)) <$> pre)
       ++ LiveView.turn 3%nat 113 :: post)
    (Some (LiveView.cv2_error "no gui")) (LiveView.Fine tt)
  = (LiveView.Print LiveView.starting
       :: (LiveView.Imshow LiveView.winname <$> (fst <$> pre) ++ [3%nat])
       ++ [LiveView.DestroyAllWindows], None) ∧
  LiveView.script (LiveView.Fine tt)
    ((λ p, LiveView.turn (fst p) (snd p)) <$> pre) None (LiveView.Fine tt)
  = (LiveView.Print LiveView.starting
       :: (LiveView.Imshow LiveView.winname <$> (fst <$> pre))
       ++ [LiveView.DestroyAllWindows], None).
Proof.
  intros pre post.
  assert (Hpre : Forall (λ p, LiveView.quits (snd p) = false) pre)
    by (repeat constructor).
  split; [exact Hpre|]. split; [reflexivity|].
  exact (LiveViewFacts.script_stops_at_q pre 3%nat 113 post
           (Some (LiveView.cv2_error "no gui")) Hpre eq_refl).
Defined.

Lemma handlers_read_one_global_witness :
  let st1 := Bench.ready [Bench.street] in
  let st2 := snd (lifespan_shutdown (E:=Bench.libs)
                    (Bench.ready [Bench.street])) in
  world st1 = world st2 ∧
  model (globals st1) ≠ model (globals st2) ∧
  cam_extractor (globals st1) = cam_extractor (globals st2) ∧
  (∀ req, fst (explain (E:=Bench.libs) req st1)
          = fst (explain (E:=Bench.libs) req st2) ∧
          world (snd (explain (E:=Bench.libs) req st1))
          = world (snd (explain (E:=Bench.libs) req st2))).
Proof.
  intros st1 st2.
  split; [reflexivity|]. split; [discriminate|]. split; [reflexivity|].
  destruct (handlers_read_one_global (E:=Bench.libs) st1 st2 eq_refl)
    as [_ Hx].
  exact (Hx eq_refl).
Defined.

Lemma handlers_reject_same_frames_witness :
  model (globals (Bench.ready [])) = Some Bench.class_names ∧
  cam_extractor (globals (Bench.ready [])) = Some tt ∧
  frame Bench.garbled = explain_frame Bench.garbled_explain ∧
  ((∃ msg st', detect (E:=Bench.libs) Bench.garbled (Bench.ready [])
               = (Raise (HTTPException 400 msg), st'))
   ↔ bad_frame (E:=Bench.libs) (frame Bench.garbled)) ∧
  ((∃ msg st', explain (E:=Bench.libs) Bench.garbled_explain (Bench.ready [])
               = (Raise (HTTPException 400 msg), st'))
   ↔ bad_frame (E:=Bench.libs) (frame Bench.garbled)).
Proof.
  split; [reflexivity|]. split; [reflexivity|]. split; [reflexivity|].
  exact (handlers_reject_same_frames (E:=Bench.libs) Bench.garbled
           Bench.garbled_explain (Bench.ready []) Bench.class_names tt
           eq_refl eq_refl eq_refl).
Defined.

Lemma detect_frame_size_positive_witness :
  let resp := bench_answer Bench.street in
  CodecLaws Bench.libs ∧
  detect (E:=Bench.libs) Bench.request (Bench.ready [Bench.street])
  = (Return resp, Bench.served []) ∧
  ∃ fr, decode_frame (E:=Bench.libs) (frame Bench.request)
          "Failed to decode image" = Return fr ∧
        shape fr = (frame_height resp, frame_width resp) ∧
        0 < frame_width resp ∧ 0 < frame_height resp.
Proof.
  intros resp. split; [exact bench_codec_laws|].
  split; [exact bench_street_detect|].
  exact (detect_frame_size_positive (E:=Bench.libs) (laws:=bench_codec_laws)
           _ _ _ _ bench_street_detect).
Defined.

(** ** Getting the corners back *)

Section Corners.
Local Open Scope Q_scope.

Lemma corner_error (a b W c e : Q) :
  0 < W →
  Qabs (c - ((a + b) / 2) / W) <= 51 # 1000000 →
  Qabs (e - (b - a) / W) <= 51 # 1000000 →
  Qabs ((c - e / 2) * W - a) <= (1 # 10000) * W ∧
  Qabs ((c + e / 2) * W - b) <= (1 # 10000) * W.
Proof.
  intros HW Hc He.
  assert (HW0 : ¬ W == 0) by lra.
  assert (Hcx : ((a + b) / 2) / W == (a / W + b / W) * (1 # 2))
    by (field; exact HW0).
  assert (Hbw : (b - a) / W == b / W - a / W) by (field; exact HW0).
  assert (Ha : a == (a / W) * W) by (field; exact HW0).
  assert (Hb : b == (b / W) * W) by (field; exact HW0).
  rewrite Hcx in Hc. rewrite Hbw in He.
  apply Qabs_Qle_condition in Hc. apply Qabs_Qle_condition in He.
  set (u := a / W) in *. set (v := b / W) in *.
  assert (He2 : e / 2 == e * (1 # 2)) by (unfold Qdiv; reflexivity).
  split; apply Qabs_Qle_condition.
  - rewrite He2. rewrite Ha at 1 2. split; nra.
  - rewrite He2. rewrite Hb at 1 2. split; nra.
Qed.

End Corners.

Section CornersOfDetections.
Context {E : Externals}.

(** X20: the corner box can be recovered from what [detect] emits: for a
    box inside a frame of width [w] and height [h] that float32 holds
    exactly, centre minus and plus half the extent, times the frame
    size, gives back each corner of the raw box to within 0.0001 [w]
    across and 0.0001 [h] down, which is under a pixel for frames
    narrower than 10000 pixels. *)
Theorem detect_corners_recoverable req st resp st' :
  detect req st = (Return resp, st') →
  float32_side (frame_width resp) → float32_side (frame_height resp) →
  ∃ m fr results t0 t1,
    detect_run req st m fr results t0 t1 st' ∧
    ∀ i row xyxy,
      raw_rows results !! i = Some row → corners row = Some xyxy →
      inside (frame_width resp) (frame_height resp) xyxy →
      ∃ d r, detections resp !! i = Some d ∧ bbox_values (bbox d) r ∧
             corners_within ((1 # 10000) * inject_Z (frame_width resp))%Q
                            ((1 # 10000) * inject_Z (frame_height resp))%Q
               (corners_of r (frame_width resp) (frame_height resp)) xyxy.
Proof.
  intros Hd Hw Hh.
  apply detect_Return_rows in Hd
    as (m & fr & results & t0 & t1 & Hrun & _ & _ & Hrows).
  exists m, fr, results, t0, t1. split; [done|].
  intros i row [[[x1 y1] x2] y2] Hrow Hc Hin.
  destruct (Hrows i row Hrow) as (d & Hd & Hdet).
  apply detection_of_row_Return in Hdet as (_ & _ & _ & Hbox & _).
  rewrite (corners_Some _ _ _ _ _ Hc) in Hbox.
  destruct (normalized_bbox_inside x1 y1 x2 y2 _ _ Hw Hh Hin)
    as (_ & _ & Hnear & _).
  rewrite <- Hbox in Hnear.
  destruct Hnear as ((cx & Hcx & Hex) & (cy & Hcy & Hey) &
                     (bw & Hbw & Hew) & (bh & Hbh & Heh)).
  cbn [exact_bbox rect_x rect_y rect_width rect_height] in Hex, Hey, Hew, Heh.
  exists d, {| rect_x := cx; rect_y := cy; rect_width := bw; rect_height := bh |}.
  split; [done|]. split; [by repeat split|].
  unfold corners_of, corners_within.
  cbn [rect_x rect_y rect_width rect_height].
  assert (HW : (0 < inject_Z (frame_width resp))%Q).
  { change 0%Q with (inject_Z 0). rewrite <- Zlt_Qlt. apply Hw. }
  assert (HH : (0 < inject_Z (frame_height resp))%Q).
  { change 0%Q with (inject_Z 0). rewrite <- Zlt_Qlt. apply Hh. }
  destruct (corner_error x1 x2 _ _ _ HW Hex Hew) as [Hleft Hright].
  destruct (corner_error y1 y2 _ _ _ HH Hey Heh) as [Htop Hbottom].
  by repeat split.
Qed.

End CornersOfDetections.

Lemma detect_corners_recoverable_witness :
  let resp := bench_answer Bench.street in
  detect (E:=Bench.libs) Bench.request (Bench.ready [Bench.street])
  = (Return resp, Bench.served []) ∧
  float32_side (frame_width resp) ∧ float32_side (frame_height resp) ∧
  Forall (inside_frame (frame_width resp) (frame_height resp))
         (raw_rows Bench.street) ∧
  ∃ m fr results t0 t1,
    detect_run (E:=Bench.libs) Bench.request (Bench.ready [Bench.street])
      m fr results t0 t1 (Bench.served []) ∧
    ∀ i row xyxy,
      raw_rows results !! i = Some row → corners row = Some xyxy →
      inside (frame_width resp) (frame_height resp) xyxy →
      ∃ d r, detections resp !! i = Some d ∧ bbox_values (bbox d) r ∧
             corners_within ((1 # 10000) * inject_Z (frame_width resp))%Q
                            ((1 # 10000) * inject_Z (frame_height resp))%Q
               (corners_of r (frame_width resp) (frame_height resp)) xyxy.
Proof.
  intros resp. split; [exact bench_street_detect|].
  split; [exact side_100|]. split; [exact side_100|].
  split; [exact street_inside_frame|].
  exact (detect_corners_recoverable (E:=Bench.libs) _ _ _ _
           bench_street_detect side_100 side_100).
Defined.

Module LiveViewOrder.
Import LiveView.

(** X21: whatever fails or quits along the way, the frames the loop shows
    are the annotated frames of the first results of the stream, in
    stream order: none is skipped, repeated or shown out of turn. *)
Theorem show_is_a_prefix {Frame} (ticks : list (Tick Frame)) last :
  ∃ frames,
    fst (show ticks last) = Imshow winname <$> frames ∧
    (length frames ≤ length ticks)%nat ∧
    Fine <$> frames = plot <$> take (length frames) ticks.
Proof.
  induction ticks as [|r rest (frames & Hev & Hlen & Hplot)]; cbn [show].
  - exists []. repeat split; cbn; lia.
  - destruct (plot r) as [annotated|f] eqn:Hp;
      [|exists []; repeat split; cbn; lia].
    destruct (imshow r) as [[]|f]; [|exists []; repeat split; cbn; lia].
    assert (Hone : ∃ frames0 : list Frame,
               [Imshow winname annotated] = Imshow winname <$> frames0 ∧
               (length frames0 ≤ length (r :: rest))%nat ∧
               Fine <$> frames0 = plot <$> take (length frames0) (r :: rest)).
    { exists [annotated]. repeat split; cbn; [lia|]. by rewrite take_0, Hp. }
    destruct (waitKey r) as [key|f]; [|exact Hone].
    destruct (quits key); [exact Hone|].
    destruct (show rest last) as [events raised]. cbn [fst] in *.
    exists (annotated :: frames). split; [by rewrite Hev|].
    split; [cbn; lia|]. cbn. by rewrite Hp, Hplot.
Qed.

End LiveViewOrder.
